(** * fetch-logos-only.py: the logo discovery and selection pipeline

    A shallow embedding of [LogoFetcher] (sanitize_filename, is_logo_file,
    get_logo_info, find_company_logos, process_company, run) and of [main],
    with the properties of the logo-candidate pipeline proved over it.

    Python [str] values are lists of Unicode code points.  The tables of the
    Python runtime the script relies on ([str.lower], and the classes [\w]
    and [\s] of module [re]) are parameters of the development; the only
    facts assumed about them are how they act on ASCII.  Wikipedia, Wikimedia
    Commons and the file system are an abstract world that answers the
    script's requests; every request is recorded in a trace. *)

From Stdlib Require Import List Bool Arith ZArith NArith Lia.
From Stdlib Require Import Ascii String DecimalString.
From Stdlib Require DecimalNat.
Import ListNotations.

Set Implicit Arguments.

(** ** Python strings *)

Module PyStr.

(** A character is a code point, a string the list of its characters. *)
Definition char := N.
Definition str := list char.

(** A string literal of the source (ASCII text only). *)
Definition lit (s : string) : str := map N_of_ascii (list_ascii_of_string s).

Definition char_eqb (a b : char) : bool := N.eqb a b.

Fixpoint str_eqb (s t : str) : bool :=
  match s, t with
  | [], [] => true
  | a :: s', b :: t' => char_eqb a b && str_eqb s' t'
  | _, _ => false
  end.

(** [s.startswith(p)] *)
Fixpoint startswith (s p : str) {struct p} : bool :=
  match p, s with
  | [], _ => true
  | a :: p', b :: s' => char_eqb a b && startswith s' p'
  | _ :: _, [] => false
  end.

(** [s.endswith(p)] *)
Definition endswith (s p : str) : bool := startswith (rev s) (rev p).

(** [needle in hay] *)
Fixpoint contains (needle hay : str) : bool :=
  startswith hay needle ||
  match hay with
  | [] => false
  | _ :: hay' => contains needle hay'
  end.

(** [any(k in s for k in keywords)] *)
Definition any_in (keywords : list str) (s : str) : bool :=
  existsb (fun k => contains k s) keywords.

(** [s.replace(old, new)] for a non-empty [old]: the occurrences of [old]
    are found from left to right and do not overlap; [skip] counts the
    characters of the occurrence just replaced that are still to be passed. *)
Fixpoint replace_from (old new s : str) (skip : nat) : str :=
  match s with
  | [] => []
  | c :: s' =>
      match skip with
      | S k => replace_from old new s' k
      | O =>
          if startswith s old
          then new ++ replace_from old new s' (List.length old - 1)
          else c :: replace_from old new s' 0
      end
  end.

Definition replace (s old new : str) : str := replace_from old new s 0.

(** [s[:n]] *)
Definition slice_to (n : nat) (s : str) : str := firstn n s.

(** [re.sub(cls, repl, s)] for a pattern that is one character class:
    every character of the class is replaced by [repl]. *)
Fixpoint re_sub_class (cls : char -> bool) (repl s : str) : str :=
  match s with
  | [] => []
  | c :: s' =>
      if cls c then repl ++ re_sub_class cls repl s'
      else c :: re_sub_class cls repl s'
  end.

(** [re.sub(cls+, repl, s)]: every maximal run of characters of the class is
    replaced by one [repl]; [in_run] tells that the previous character
    belonged to the run being replaced. *)
Fixpoint re_sub_runs_from (cls : char -> bool) (repl s : str) (in_run : bool)
  : str :=
  match s with
  | [] => []
  | c :: s' =>
      if cls c
      then (if in_run then [] else repl) ++ re_sub_runs_from cls repl s' true
      else c :: re_sub_runs_from cls repl s' false
  end.

Definition re_sub_runs (cls : char -> bool) (repl s : str) : str :=
  re_sub_runs_from cls repl s false.

(** Decimal text of a natural number, as an f-string prints it. *)
Definition str_of_nat (n : nat) : str :=
  lit (NilEmpty.string_of_uint (Nat.to_uint n)).

(** The ASCII part of the runtime's tables. *)
Definition is_ascii (c : char) : bool := N.ltb c 128.

Definition ascii_isalnum (c : char) : bool :=
  (N.leb 48 c && N.leb c 57) || (N.leb 65 c && N.leb c 90)
  || (N.leb 97 c && N.leb c 122).

Definition ascii_isspace (c : char) : bool :=
  (N.leb 9 c && N.leb c 13) || (N.leb 28 c && N.leb c 32).

Definition ascii_lower_char (c : char) : char :=
  if N.leb 65 c && N.leb c 90 then (c + 32)%N else c.

Definition ascii_lower (s : str) : str := map ascii_lower_char s.

End PyStr.
Export PyStr.

(** ** The tables of the Python runtime

    [isalnum] and [isspace] are [str.isalnum] and [str.isspace] on one
    character, [lower] is [str.lower].  Module [re] defines [\w] as the
    alphanumeric characters and the underscore, and [\s] as the characters
    [str.isspace] accepts. *)

Record PyRuntime := {
  isalnum : char -> bool;
  isspace : char -> bool;
  lower : str -> str
}.

Definition ascii_runtime : PyRuntime :=
  {| isalnum := ascii_isalnum; isspace := ascii_isspace; lower := ascii_lower |}.

(** What is assumed of a runtime: on ASCII it is the ASCII tables. *)
Definition ascii_sound (rt : PyRuntime) : Prop :=
  (forall c, is_ascii c = true -> isalnum rt c = ascii_isalnum c) /\
  (forall c, is_ascii c = true -> isspace rt c = ascii_isspace c) /\
  (forall s, forallb is_ascii s = true -> lower rt s = ascii_lower s).

(** [str.lower] rewrites a text of ASCII characters that are not capital
    letters to itself wherever it occurs. *)
Definition lower_keeps (rt : PyRuntime) : Prop :=
  forall a k b,
    forallb is_ascii k = true -> ascii_lower k = k ->
    exists a' b', lower rt (a ++ k ++ b) = a' ++ k ++ b'.

Definition underscore : char := 95%N.
Definition hyphen : char := 45%N.

(** [\w] *)
Definition re_word (rt : PyRuntime) (c : char) : bool :=
  isalnum rt c || char_eqb c underscore.

(** [[^\w\s-]] *)
Definition unsafe_char (rt : PyRuntime) (c : char) : bool :=
  negb (re_word rt c || isspace rt c || char_eqb c hyphen).

(** [[-\s]] *)
Definition separator_char (rt : PyRuntime) (c : char) : bool :=
  char_eqb c hyphen || isspace rt c.

(** ** LogoFetcher: the pure methods *)

(** [sanitize_filename], lines 39-44. *)
Definition sanitize_filename (rt : PyRuntime) (name : str) : str :=
  let safe_name := re_sub_class (unsafe_char rt) (lit "") name in
  let safe_name := re_sub_runs (separator_char rt) (lit "_") safe_name in
  slice_to 50 safe_name.

Definition logo_keywords : list str :=
  map lit ["logo"; "wordmark"; "emblem"; "symbol"; "brand";
           "trademark"; "corporate"; "company_logo"; "logotype";
           "mark"; "insignia"]%string.

Definition skip_keywords : list str :=
  map lit ["commons-logo"; "wiki"; "wikidata"; "wikimedia";
           "edit-icon"; "ambox"; "merge"; "disambig"]%string.

Definition has_logo_keyword (filename_lower : str) : bool :=
  any_in logo_keywords filename_lower.

Definition is_png_svg (filename_lower : str) : bool :=
  endswith filename_lower (lit ".png") || endswith filename_lower (lit ".svg").

Definition has_skip_keyword (filename_lower : str) : bool :=
  any_in skip_keywords filename_lower.

(** [is_logo_file], lines 46-70. *)
Definition is_logo_file (rt : PyRuntime) (filename : str) : bool :=
  let filename_lower := lower rt filename in
  has_logo_keyword filename_lower && is_png_svg filename_lower
  && negb (has_skip_keyword filename_lower).

(** ** The answers of the two MediaWiki queries

    The JSON of a reply is kept as far as the script reads it: the entries of
    [query.pages] in the order of the reply, each with its optional [images]
    (the titles) and its optional [imageinfo] records.  A record's fields are
    optional, as [dict.get] reads them; numbers are Python integers. *)

Record ImageInfo := {
  ii_url : option str;
  ii_width : option Z;
  ii_height : option Z;
  ii_mime : option str;
  ii_size : option Z
}.

Record PageData := {
  pd_images : option (list str);
  pd_imageinfo : option (list ImageInfo)
}.

Definition Pages := list (str * PageData).

(** The dict [get_logo_info] returns. *)
Record LogoCandidate := {
  lc_url : option str;
  lc_width : Z;
  lc_height : Z;
  lc_mime : str;
  lc_size : Z;
  lc_filename : str
}.

Definition get_or {A} (o : option A) (d : A) : A :=
  match o with Some a => a | None => d end.

(** The test of line 135. *)
Definition accepts (mime_type : str) (width : Z) : bool :=
  contains (lit "png") mime_type
  || (contains (lit "svg") mime_type && (100 <=? width)%Z).

(** Lines 131-143 on one [imageinfo] record. *)
Definition logo_of_info (file_title : str) (image_info : ImageInfo)
  : option LogoCandidate :=
  let mime_type := get_or (ii_mime image_info) (lit "") in
  let width := get_or (ii_width image_info) 0%Z in
  let height := get_or (ii_height image_info) 0%Z in
  if accepts mime_type width
  then Some {| lc_url := ii_url image_info;
               lc_width := width;
               lc_height := height;
               lc_mime := mime_type;
               lc_size := get_or (ii_size image_info) 0%Z;
               lc_filename := replace file_title (lit "File:") (lit "") |}
  else None.

(** The loop of lines 126-144: the first entry whose first [imageinfo]
    record is accepted decides. *)
Fixpoint logo_of_pages (file_title : str) (pages : Pages)
  : option LogoCandidate :=
  match pages with
  | [] => None
  | (_, page_data) :: rest =>
      match pd_imageinfo page_data with
      | Some (image_info :: _) =>
          match logo_of_info file_title image_info with
          | Some logo => Some logo
          | None => logo_of_pages file_title rest
          end
      | _ => logo_of_pages file_title rest
      end
  end.

(** ** The outside world

    Requests, replies, console messages and the trace of what the script
    asks of the world. *)

Definition path := list str.

(** [p / name] of [pathlib]: an empty name adds nothing. *)
Definition path_join (p : path) (name : str) : path :=
  match name with [] => p | _ => p ++ [name] end.

Definition path_name (p : path) : str := last p (lit "").

Definition user_agent : str := lit "VoteWithYourWallet/1.0 (contact@example.com)".

Record Request := {
  rq_url : str;
  rq_params : list (str * str);
  rq_user_agent : str;
  rq_stream : bool;
  rq_timeout : Z
}.

(** A reply: [json] is what [response.json()] gives, read down to
    [query.pages] ([None] when it raises), [chunks] what [iter_content]
    yields. *)
Record Response := {
  status_code : Z;
  content_type : option str;
  json : option Pages;
  chunks : list (list N)
}.

(** The lines the script prints, by the statement that prints them. *)
Inductive Msg : Type :=
| MsgSavedTo (dir : path)
| MsgNotImage (content_type : str)
| MsgDownloaded (folder filename : str) (file_size : Z)
| MsgDownloadFailed (filename e : str)
| MsgLogoInfoError (e : str)
| MsgSearching (company_name : str)
| MsgNoPage (company_name : str)
| MsgFoundPage (title : str)
| MsgApiFailed (status : Z)
| MsgScanning (n : nat)
| MsgPotentialLogo (img_title : str)
| MsgLogoConfirmed (width height : Z) (mime : str)
| MsgNoImages
| MsgFindError (company_name e : str)
| MsgRule (n : nat)
| MsgProcessing (company_name : str)
| MsgNoLogos (company_name : str)
| MsgFoundLogos (n : nat) (company_name : str)
| MsgCreatedFolder (name : str)
| MsgDownloading (i n : nat)
| MsgOriginal (original_filename : str)
| MsgSize (width height : Z)
| MsgFormat (mime : str)
| MsgDownloadError (i : nat) (e : str)
| MsgTitle
| MsgTargetFormat
| MsgCompanies (n : nat)
| MsgSummaryTitle
| MsgProcessed (n : Z)
| MsgLogosFound (n : Z)
| MsgLogosDownloaded (n : Z)
| MsgSuccessRate (downloaded found : Z)
| MsgAllSaved (dir : path)
| MsgUsage.

Inductive Event : Type :=
| EvPrint (m : Msg)
| EvWikiExists (title : str)
| EvHttpGet (rq : Request)
| EvMkdir (p : path)
| EvWriteFile (p : path) (data : list (list N))
| EvSleep (seconds : Z).

(** A network call is a request to Wikipedia or a download. *)
Definition is_network (ev : Event) : bool :=
  match ev with
  | EvWikiExists _ | EvHttpGet _ => true
  | _ => false
  end.

(** A file-system change creates a directory or writes a file. *)
Definition is_fs_change (ev : Event) : bool :=
  match ev with
  | EvMkdir _ | EvWriteFile _ _ => true
  | _ => false
  end.

(** A statement returns a value or raises an exception (its text). *)
Inductive Outcome (A : Type) : Type :=
| Val (a : A)
| Exn (e : str).
Arguments Exn {A} e.

(** The world answers: [wiki_exists] is [page(title).exists()], giving the
    canonical title of an article that exists; [http_get] is
    [requests.get]; [fs_mkdir] is [mkdir(exist_ok=True)]; [fs_write] opens
    the file, writes the chunks and returns the size [stat] reports. *)
Record Env (World : Type) := {
  wiki_exists : str -> World -> Outcome (option str) * World;
  http_get : Request -> World -> Outcome Response * World;
  fs_mkdir : path -> World -> Outcome unit * World;
  fs_write : path -> list (list N) -> World -> Outcome Z * World
}.

(** ** The monad of the script: world passing, exceptions, trace *)

Section Script.

Variable rt : PyRuntime.
Variable World : Type.
Variable env : Env World.

Definition M (A : Type) : Type := World -> Outcome A * World * list Event.

Definition ret {A} (a : A) : M A := fun w => (Val a, w, []).

Definition bind {A B} (m : M A) (f : A -> M B) : M B :=
  fun w =>
    match m w with
    | (Val a, w1, t1) =>
        match f a w1 with
        | (r, w2, t2) => (r, w2, t1 ++ t2)
        end
    | (Exn e, w1, t1) => (Exn e, w1, t1)
    end.

Definition raise {A} (e : str) : M A := fun w => (Exn e, w, []).

(** [try: m except Exception as e: handler e] *)
Definition try_except {A} (m : M A) (handler : str -> M A) : M A :=
  fun w =>
    match m w with
    | (Val a, w1, t1) => (Val a, w1, t1)
    | (Exn e, w1, t1) =>
        match handler e w1 with
        | (r, w2, t2) => (r, w2, t1 ++ t2)
        end
    end.

(** A request to the world, recorded in the trace. *)
Definition ask {A} (ev : Event) (f : World -> Outcome A * World) : M A :=
  fun w => match f w with (r, w1) => (r, w1, [ev]) end.

Definition print (m : Msg) : M unit := fun w => (Val tt, w, [EvPrint m]).
Definition sleep (seconds : Z) : M unit := fun w => (Val tt, w, [EvSleep seconds]).

End Script.

Notation "x <- m ;; k" := (bind m (fun x => k))
  (at level 61, m at next level, right associativity).
Notation "m ;; k" := (bind m (fun _ => k))
  (at level 61, right associativity).

Arguments ret {World A} a _.
Arguments raise {World A} e _.
Arguments print {World} m _.
Arguments sleep {World} seconds _.

(** ** LogoFetcher: the methods that talk to the world *)

Record Stats := {
  companies_processed : Z;
  logos_found : Z;
  logos_downloaded : Z
}.

Record LogoFetcher := {
  logo_dir : path;
  stats : Stats
}.

Definition bump_processed (self : LogoFetcher) : LogoFetcher :=
  {| logo_dir := logo_dir self;
     stats := {| companies_processed := companies_processed (stats self) + 1;
                 logos_found := logos_found (stats self);
                 logos_downloaded := logos_downloaded (stats self) |} |}.

Definition add_found (self : LogoFetcher) (n : Z) : LogoFetcher :=
  {| logo_dir := logo_dir self;
     stats := {| companies_processed := companies_processed (stats self);
                 logos_found := logos_found (stats self) + n;
                 logos_downloaded := logos_downloaded (stats self) |} |}.

Definition bump_downloaded (self : LogoFetcher) : LogoFetcher :=
  {| logo_dir := logo_dir self;
     stats := {| companies_processed := companies_processed (stats self);
                 logos_found := logos_found (stats self);
                 logos_downloaded := logos_downloaded (stats self) + 1 |} |}.

(** The article [find_company_logos] settles on: the variation asked for
    and the title the encyclopedia gives it. *)
Record WikiPage := {
  wp_variation : str;
  wp_title : str
}.

(** The query of lines 105-118. *)
Definition imageinfo_request (file_title : str) : Request :=
  {| rq_url := lit "https://commons.wikimedia.org/w/api.php";
     rq_params := [(lit "action", lit "query"); (lit "format", lit "json");
                   (lit "titles", file_title); (lit "prop", lit "imageinfo");
                   (lit "iiprop", lit "url|size|mime|extmetadata")];
     rq_user_agent := user_agent;
     rq_stream := false;
     rq_timeout := 15 |}.

(** The query of lines 177-190. *)
Definition images_request (title : str) : Request :=
  {| rq_url := lit "https://en.wikipedia.org/w/api.php";
     rq_params := [(lit "action", lit "query"); (lit "format", lit "json");
                   (lit "titles", title); (lit "prop", lit "images");
                   (lit "imlimit", lit "50")];
     rq_user_agent := user_agent;
     rq_stream := false;
     rq_timeout := 15 |}.

(** The request of line 79. *)
Definition download_request (url : str) : Request :=
  {| rq_url := url;
     rq_params := [];
     rq_user_agent := user_agent;
     rq_stream := true;
     rq_timeout := 30 |}.

(** Lines 156-161. *)
Definition search_variations (company_name : str) : list str :=
  [ company_name;
    company_name ++ lit ", Inc.";
    company_name ++ lit " Inc.";
    lit "The " ++ company_name ++ lit " Company" ].

Section Fetcher.

Variable rt : PyRuntime.
Variable World : Type.
Variable env : Env World.

Local Abbreviation M := (M World).

Definition requests_get (rq : Request) : M Response :=
  ask (EvHttpGet rq) (http_get env rq).

(** [response.json()] and the reading of [query.pages]. *)
Definition response_pages (response : Response) : M Pages :=
  match json response with
  | Some pages => ret pages
  | None => raise (lit "JSONDecodeError")
  end.

(** [get_logo_info], lines 102-148. *)
Definition get_logo_info (file_title : str) : M (option LogoCandidate) :=
  try_except
    (response <- requests_get (imageinfo_request file_title) ;;
     if negb (status_code response =? 200)%Z then ret None
     else
       pages <- response_pages response ;;
       ret (logo_of_pages file_title pages))
    (fun e => print (MsgLogoInfoError e) ;; ret None).

(** The loop of lines 164-168: the variations are tried in order, the first
    that exists ends the loop. *)
Fixpoint first_existing (variations : list str) : M (option WikiPage) :=
  match variations with
  | [] => ret None
  | variation :: rest =>
      found <- ask (EvWikiExists variation) (wiki_exists env variation) ;;
      match found with
      | Some title => ret (Some {| wp_variation := variation; wp_title := title |})
      | None => first_existing rest
      end
  end.

(** The loop of lines 205-214 over the images of one entry; [logos] is the
    list accumulated so far. *)
Fixpoint scan_images (images_list : list str) (logos : list LogoCandidate)
  : M (list LogoCandidate) :=
  match images_list with
  | [] => ret logos
  | img_title :: rest =>
      if is_logo_file rt img_title then
        print (MsgPotentialLogo img_title) ;;
        logo_info <- get_logo_info img_title ;;
        match logo_info with
        | Some logo =>
            print (MsgLogoConfirmed (lc_width logo) (lc_height logo) (lc_mime logo)) ;;
            scan_images rest (logos ++ [logo])
        | None => scan_images rest logos
        end
      else scan_images rest logos
  end.

(** The loop of lines 200-216 over the entries of [query.pages]. *)
Fixpoint scan_pages (pages : Pages) (logos : list LogoCandidate)
  : M (list LogoCandidate) :=
  match pages with
  | [] => ret logos
  | (_, page_data) :: rest =>
      match pd_images page_data with
      | Some images_list =>
          print (MsgScanning (List.length images_list)) ;;
          logos1 <- scan_images images_list logos ;;
          scan_pages rest logos1
      | None =>
          print MsgNoImages ;;
          scan_pages rest logos
      end
  end.

(** [find_company_logos], lines 150-222. *)
Definition find_company_logos (company_name : str) : M (list LogoCandidate) :=
  try_except
    (print (MsgSearching company_name) ;;
     page <- first_existing (search_variations company_name) ;;
     match page with
     | None => print (MsgNoPage company_name) ;; ret []
     | Some page =>
         print (MsgFoundPage (wp_title page)) ;;
         response <- requests_get (images_request (wp_title page)) ;;
         if negb (status_code response =? 200)%Z
         then print (MsgApiFailed (status_code response)) ;; ret []
         else
           pages <- response_pages response ;;
           scan_pages pages []
     end)
    (fun e => print (MsgFindError company_name e) ;; ret []).

End Fetcher.

(** ** Downloading, the run over the companies, and [main] *)

Section Program.

Variable rt : PyRuntime.
Variable World : Type.
Variable env : Env World.

Local Abbreviation M := (M World).

(** [response.raise_for_status()] *)
Definition raise_for_status (response : Response) : M unit :=
  if ((400 <=? status_code response) && (status_code response <? 600))%Z
  then raise (lit "HTTPError")
  else ret tt.

(** [download_logo_to_folder], lines 72-100; a candidate without a URL
    makes [requests.get] raise before anything is sent. *)
Definition download_logo_to_folder
  (url : option str) (filename : str) (folder_path : path) : M bool :=
  try_except
    (response <- match url with
                 | Some u => requests_get env (download_request u)
                 | None => raise (lit "MissingSchema")
                 end ;;
     raise_for_status response ;;
     let content_type := get_or (content_type response) (lit "") in
     if negb (contains (lit "image") content_type)
     then print (MsgNotImage content_type) ;; ret false
     else
       let filepath := path_join folder_path filename in
       file_size <- ask (EvWriteFile filepath (chunks response))
                        (fs_write env filepath (chunks response)) ;;
       print (MsgDownloaded (path_name folder_path) filename file_size) ;;
       ret true)
    (fun e => print (MsgDownloadFailed filename e) ;; ret false).

(** The loop of lines 248-267; [i] is the index [enumerate] gives. *)
Fixpoint download_logos (self : LogoFetcher) (company_dir : path)
  (total i : nat) (logos : list LogoCandidate) : M LogoFetcher :=
  match logos with
  | [] => ret self
  | logo_info :: rest =>
      self1 <-
        try_except
          (let original_filename := lc_filename logo_info in
           let ext := if contains (lit "png") (lc_mime logo_info)
                      then lit "png" else lit "svg" in
           let filename := lit "logo_" ++ str_of_nat (i + 1) ++ lit "." ++ ext in
           print (MsgDownloading (i + 1) total) ;;
           print (MsgOriginal original_filename) ;;
           print (MsgSize (lc_width logo_info) (lc_height logo_info)) ;;
           print (MsgFormat (lc_mime logo_info)) ;;
           ok <- download_logo_to_folder (lc_url logo_info) filename company_dir ;;
           sleep 2 ;;
           ret (if ok : bool then bump_downloaded self else self))
          (fun e => print (MsgDownloadError (i + 1) e) ;; ret self) ;;
      download_logos self1 company_dir total (S i) rest
  end.

(** [process_company], lines 224-267. *)
Definition process_company (self : LogoFetcher) (company_name : str)
  : M LogoFetcher :=
  let self := bump_processed self in
  print (MsgRule 60) ;;
  print (MsgProcessing company_name) ;;
  print (MsgRule 60) ;;
  logos <- find_company_logos rt env company_name ;;
  match logos with
  | [] => print (MsgNoLogos company_name) ;; ret self
  | _ :: _ =>
      let self := add_found self (Z.of_nat (List.length logos)) in
      print (MsgFoundLogos (List.length logos) company_name) ;;
      let company_safe_name := sanitize_filename rt company_name in
      let company_dir := path_join (logo_dir self) company_safe_name in
      ask (EvMkdir company_dir) (fs_mkdir env company_dir) ;;
      print (MsgCreatedFolder (path_name company_dir)) ;;
      download_logos self company_dir (List.length logos) 0 logos
  end.

(** [print_summary], lines 283-296. *)
Definition print_summary (self : LogoFetcher) : M unit :=
  print (MsgRule 60) ;;
  print MsgSummaryTitle ;;
  print (MsgRule 60) ;;
  print (MsgProcessed (companies_processed (stats self))) ;;
  print (MsgLogosFound (logos_found (stats self))) ;;
  print (MsgLogosDownloaded (logos_downloaded (stats self))) ;;
  (if (0 <? logos_found (stats self))%Z
   then print (MsgSuccessRate (logos_downloaded (stats self))
                              (logos_found (stats self)))
   else ret tt) ;;
  print (MsgAllSaved (logo_dir self)).

(** The loop of lines 276-279. *)
Fixpoint process_all (self : LogoFetcher) (companies : list str)
  : M LogoFetcher :=
  match companies with
  | [] => ret self
  | company :: rest =>
      self1 <- process_company self company ;;
      sleep 3 ;;
      process_all self1 rest
  end.

(** [run], lines 269-281. *)
Definition run (self : LogoFetcher) (companies : list str) : M LogoFetcher :=
  print MsgTitle ;;
  print (MsgRule 50) ;;
  print MsgTargetFormat ;;
  print (MsgCompanies (List.length companies)) ;;
  self1 <- process_all self companies ;;
  print_summary self1 ;;
  ret self1.

(** [LogoFetcher.__init__], lines 22-37. *)
Definition new_LogoFetcher : M LogoFetcher :=
  let logo_dir := [lit "company_logos"] in
  ask (EvMkdir logo_dir) (fs_mkdir env logo_dir) ;;
  print (MsgSavedTo logo_dir) ;;
  ret {| logo_dir := logo_dir;
         stats := {| companies_processed := 0;
                     logos_found := 0;
                     logos_downloaded := 0 |} |}.

(** [main], lines 298-319, on [sys.argv]. *)
Definition main (argv : list str) : M unit :=
  if (List.length argv <? 2)%nat
  then print MsgUsage ;; ret tt
  else
    let companies := skipn 1 argv in
    fetcher <- new_LogoFetcher ;;
    run fetcher companies ;;
    ret tt.

End Program.

(** ** Definitions used to state the properties *)

Definition comma : char := 44%N.
Definition period : char := 46%N.

(** The characters the first substitution of [sanitize_filename] keeps. *)
Definition kept (rt : PyRuntime) (c : char) : bool := negb (unsafe_char rt c).

(** The folder name as a reader of "unsafe characters collapsed to
    underscores" would compute it: every run of characters that are neither
    alphanumeric nor underscores becomes one underscore, and the result is
    cut at 50 characters.  It is compared with [sanitize_filename] below. *)
Definition collapse_unsafe (rt : PyRuntime) (name : str) : str :=
  slice_to 50 (re_sub_runs (fun c => negb (re_word rt c)) (lit "_") name).

(** The display filename as it is worded for a reader: a leading "File:"
    removed, every other character kept.  It is compared with the
    [filename] entry of [get_logo_info] below. *)
Definition strip_leading_File (title : str) : str :=
  if startswith title (lit "File:") then skipn 5 title else title.

(** ** A small world for examples

    Wikipedia knows one company: the article "Acme Corporation", found
    under the variation "Acme Inc." only.  It embeds three files.  Commons
    answers the metadata of the files listed in [infos].  The world's state
    counts the requests it has served. *)

Module Demo.

Definition lookup {A} (key : str) (table : list (str * A)) : option A :=
  match find (fun kv => str_eqb (fst kv) key) table with
  | Some kv => Some (snd kv)
  | None => None
  end.

Definition image_info (mime : string) (width height : Z) : ImageInfo :=
  {| ii_url := Some (lit "https://upload.wikimedia.org/acme");
     ii_width := Some width;
     ii_height := Some height;
     ii_mime := Some (lit mime);
     ii_size := Some 2048%Z |}.

Definition images : list str :=
  map lit ["File:Acme_logo.png"; "File:Random.jpg"; "File:Acme_wordmark.svg"]%string.

Definition reply (infos : list (str * ImageInfo)) (rq : Request) : Response :=
  if str_eqb (rq_url rq) (lit "https://en.wikipedia.org/w/api.php") then
    {| status_code := 200; content_type := Some (lit "application/json");
       json := Some [(lit "7", {| pd_images := Some images;
                                  pd_imageinfo := None |})];
       chunks := [] |}
  else if str_eqb (rq_url rq) (lit "https://commons.wikimedia.org/w/api.php") then
    {| status_code := 200; content_type := Some (lit "application/json");
       json := Some [(lit "-1",
                      {| pd_images := None;
                         pd_imageinfo :=
                           match lookup (lit "titles") (rq_params rq) with
                           | Some title =>
                               match lookup title infos with
                               | Some info => Some [info]
                               | None => None
                               end
                           | None => None
                           end |})];
       chunks := [] |}
  else
    {| status_code := 200; content_type := Some (lit "image/png");
       json := None; chunks := [[137; 80; 78; 71]%N] |}.

Definition env (infos : list (str * ImageInfo)) : Env nat :=
  {| wiki_exists := fun title w =>
       (Val (if str_eqb title (lit "Acme Inc.")
             then Some (lit "Acme Corporation") else None), S w);
     http_get := fun rq w => (Val (reply infos rq), S w);
     fs_mkdir := fun _ w => (Val tt, w);
     fs_write := fun _ data w =>
       (Val (Z.of_nat (List.length (List.concat data))), w) |}.

(** The files as Commons describes them. *)
Definition infos : list (str * ImageInfo) :=
  [ (lit "File:Acme_logo.png", image_info "image/png" 64 64);
    (lit "File:Acme_wordmark.svg", image_info "image/svg+xml" 200 50) ].

(** The same files when the wordmark's type names both formats and the
    picture is narrow. *)
Definition infos_both : list (str * ImageInfo) :=
  [ (lit "File:Acme_logo.png", image_info "image/png" 64 64);
    (lit "File:Acme_wordmark.svg", image_info "image/svg+xml; alt=png" 50 12) ].

(** The candidates of the two files. *)
Definition acme_logo : LogoCandidate :=
  {| lc_url := Some (lit "https://upload.wikimedia.org/acme");
     lc_width := 64; lc_height := 64; lc_mime := lit "image/png";
     lc_size := 2048; lc_filename := lit "Acme_logo.png" |}.

Definition acme_wordmark (mime : string) (width height : Z) : LogoCandidate :=
  {| lc_url := Some (lit "https://upload.wikimedia.org/acme");
     lc_width := width; lc_height := height; lc_mime := lit mime;
     lc_size := 2048; lc_filename := lit "Acme_wordmark.svg" |}.

End Demo.

(** The variations of a list that the encyclopedia, asked in order from
    world [w], all reports missing, leaving world [w']. *)
Inductive misses World (env : Env World) : list str -> World -> World -> Prop :=
| misses_nil (w : World) : misses env [] w w
| misses_cons (v : str) (vs : list str) (w w1 w2 : World) :
    wiki_exists env v w = (Val None, w1) ->
    misses env vs w1 w2 ->
    misses env (v :: vs) w w2.

(** What [get_logo_info] yields for each title of a list, asked in order
    from world [w], and the world left behind. *)
Fixpoint fetch_each World (env : Env World) (titles : list str) (w : World)
  : list (option LogoCandidate) * World :=
  match titles with
  | [] => ([], w)
  | title :: rest =>
      match get_logo_info env title w with
      | (r, w1, _) =>
          match fetch_each env rest w1 with
          | (rs, w2) => (match r with Val o => o | Exn _ => None end :: rs, w2)
          end
      end
  end.

(** The candidates among the answers, in the order of the answers. *)
Definition somes {A} (l : list (option A)) : list A :=
  flat_map (fun o => match o with Some a => [a] | None => [] end) l.

(** The references of a reply in listing order. *)
Definition all_images (pages : Pages) : list str :=
  flat_map (fun entry => get_or (pd_images (snd entry)) []) pages.

Definition imageinfo_event (title : str) : Event :=
  EvHttpGet (imageinfo_request title).

(** ** Statements about runs

    [spec P Q m]: from every world, every event [m] leaves in the trace has
    property [P], and a value [m] returns has property [Q].  [safe m]: from
    every world [m] returns a value, it does not raise. *)

Definition spec World {A} (P : Event -> Prop) (Q : A -> Prop) (m : M World A)
  : Prop :=
  forall w,
    Forall P (snd (m w)) /\ (forall a, fst (fst (m w)) = Val a -> Q a).

Definition safe World {A} (m : M World A) : Prop :=
  forall w, exists a, fst (fst (m w)) = Val a.

Definition any_value {A} (a : A) : Prop := True.

(** The request carries the script's identification and one of its two
    timeouts. *)
Definition identified (ev : Event) : Prop :=
  match ev with
  | EvHttpGet rq =>
      rq_user_agent rq = user_agent
      /\ (rq_timeout rq = 15%Z \/ rq_timeout rq = 30%Z)
  | _ => True
  end.

(** The event changes nothing on disk and takes no pause. *)
Definition is_sleep (ev : Event) : bool :=
  match ev with EvSleep _ => true | _ => false end.

Definition read_only (ev : Event) : Prop :=
  is_fs_change ev = false /\ is_sleep ev = false.

(** A change on disk happens at or below [root]. *)
Definition below (root : path) (ev : Event) : Prop :=
  match ev with
  | EvMkdir p | EvWriteFile p _ => exists rest, p = root ++ rest
  | _ => True
  end.

(** [f"logo_{i+1}.{ext}"] of line 253. *)
Definition logo_filename (i : nat) (mime : str) : str :=
  lit "logo_" ++ str_of_nat (i + 1) ++ lit "."
  ++ (if contains (lit "png") mime then lit "png" else lit "svg").

(** The keyword lists without the keywords that contain another keyword of
    their list. *)
Definition logo_keywords_core : list str :=
  map lit ["logo"; "emblem"; "symbol"; "brand"; "corporate"; "mark";
           "insignia"]%string.

Definition skip_keywords_core : list str :=
  map lit ["commons-logo"; "wiki"; "edit-icon"; "ambox"; "merge";
           "disambig"]%string.

(** What the counters may do while a company is processed: one more
    company, some logos found, no more logos downloaded than found. *)
Definition accounted (self self' : LogoFetcher) (found : Z) : Prop :=
  logo_dir self' = logo_dir self
  /\ companies_processed (stats self') = (companies_processed (stats self) + 1)%Z
  /\ logos_found (stats self') = (logos_found (stats self) + found)%Z
  /\ (logos_downloaded (stats self) <= logos_downloaded (stats self')
      <= logos_downloaded (stats self) + found)%Z.

(** The reply with every entry cut to its first [imageinfo] record. *)
Definition first_records (pages : Pages) : Pages :=
  map (fun entry =>
         (fst entry,
          {| pd_images := pd_images (snd entry);
             pd_imageinfo :=
               match pd_imageinfo (snd entry) with
               | Some (image_info :: _) => Some [image_info]
               | other => other
               end |})) pages.

(** The first record of an entry, when it has one. *)
Definition first_record (page_data : PageData) : option ImageInfo :=
  match pd_imageinfo page_data with
  | Some (image_info :: _) => Some image_info
  | _ => None
  end.

Definition ascii_upper_char (c : char) : char :=
  if N.leb 97 c && N.leb c 122 then (c - 32)%N else c.

Definition ascii_upper (s : str) : str := map ascii_upper_char s.

Definition space : char := 32%N.
Definition slash : char := 47%N.

(** What [find_company_logos] may ask of the world, and what a whole run
    may: the property [P] holds of every such event. *)
Definition permits_lookup (P : Event -> Prop) : Prop :=
  (forall m, P (EvPrint m))
  /\ (forall v, P (EvWikiExists v))
  /\ (forall title, P (EvHttpGet (imageinfo_request title)))
  /\ (forall title, P (EvHttpGet (images_request title))).

Definition permits (root : path) (P : Event -> Prop) : Prop :=
  permits_lookup P
  /\ (forall seconds, P (EvSleep seconds))
  /\ (forall url, P (EvHttpGet (download_request url)))
  /\ (forall rest, P (EvMkdir (root ++ rest)))
  /\ (forall rest data, P (EvWriteFile (root ++ rest) data)).

(** The counters after some downloads: only [logos_downloaded] moved, by
    at most [n]. *)
Definition counted (self self' : LogoFetcher) (n : Z) : Prop :=
  logo_dir self' = logo_dir self
  /\ companies_processed (stats self') = companies_processed (stats self)
  /\ logos_found (stats self') = logos_found (stats self)
  /\ (logos_downloaded (stats self) <= logos_downloaded (stats self')
      <= logos_downloaded (stats self) + n)%Z.

(** The counters after [n] companies. *)
Definition tallied (self self' : LogoFetcher) (n : Z) : Prop :=
  logo_dir self' = logo_dir self
  /\ companies_processed (stats self') = (companies_processed (stats self) + n)%Z
  /\ (logos_found (stats self) <= logos_found (stats self'))%Z
  /\ (logos_downloaded (stats self) <= logos_downloaded (stats self'))%Z
  /\ (logos_downloaded (stats self') - logos_downloaded (stats self)
      <= logos_found (stats self') - logos_found (stats self))%Z.

(** ** Worlds in which something fails *)

Module Faulty.

(** No network: every request raises. *)
Definition offline : Env nat :=
  {| wiki_exists := fun _ w => (Exn (lit "ConnectionError"), S w);
     http_get := fun _ w => (Exn (lit "ConnectionError"), S w);
     fs_mkdir := fun _ w => (Val tt, w);
     fs_write := fun _ data w =>
       (Val (Z.of_nat (List.length (List.concat data))), w) |}.

(** The demo world with a disk on which nothing can be created. *)
Definition locked_disk : Env nat :=
  {| wiki_exists := wiki_exists (Demo.env Demo.infos);
     http_get := http_get (Demo.env Demo.infos);
     fs_mkdir := fun _ w => (Exn (lit "PermissionError"), w);
     fs_write := fun _ _ w => (Exn (lit "PermissionError"), w) |}.

(** The demo world whose servers answer every request with the given
    status and content type. *)
Definition answering (status : Z) (ctype : string) : Env nat :=
  {| wiki_exists := wiki_exists (Demo.env Demo.infos);
     http_get := fun rq w =>
       (Val {| status_code := status;
               content_type := Some (lit ctype);
               json := json (Demo.reply Demo.infos rq);
               chunks := [[60; 104; 49; 62]%N] |}, S w);
     fs_mkdir := fs_mkdir (Demo.env Demo.infos);
     fs_write := fs_write (Demo.env Demo.infos) |}.

(** The demo world when the article embeds no file. *)
Definition bare : Env nat :=
  {| wiki_exists := wiki_exists (Demo.env Demo.infos);
     http_get := fun rq w =>
       (Val {| status_code := 200;
               content_type := Some (lit "application/json");
               json := Some [(lit "7", {| pd_images := None;
                                          pd_imageinfo := None |})];
               chunks := [] |}, S w);
     fs_mkdir := fs_mkdir (Demo.env Demo.infos);
     fs_write := fs_write (Demo.env Demo.infos) |}.

End Faulty.

(** A fetcher as [LogoFetcher()] leaves it, and with given counters. *)
Definition fetcher_with (processed found downloaded : Z) : LogoFetcher :=
  {| logo_dir := [lit "company_logos"];
     stats := {| companies_processed := processed;
                 logos_found := found;
                 logos_downloaded := downloaded |} |}.

Definition any_event (ev : Event) : Prop := True.

(** The files the download loop writes to: candidate number [i] (counted
    from 0) goes to [logo_<i+1>.<ext>] in the company folder. *)
Fixpoint logo_targets (company_dir : path) (i : nat)
  (logos : list LogoCandidate) : list path :=
  match logos with
  | [] => []
  | logo_info :: rest =>
      path_join company_dir (logo_filename i (lc_mime logo_info))
      :: logo_targets company_dir (S i) rest
  end.

(** The event creates no directory and writes to one of [targets] only. *)
Definition writes_to (targets : list path) (ev : Event) : Prop :=
  match ev with
  | EvWriteFile p _ => In p targets
  | EvMkdir _ => False
  | _ => True
  end.

Definition no_pause (ev : Event) : Prop := is_sleep ev = false.

(** A text starts with a character outside the class, or is empty. *)
Definition starts_plain (sep : char -> bool) (s : str) : Prop :=
  match s with
  | [] => True
  | c :: _ => sep c = false
  end.

(** [collapsed sep s t]: [t] is [s] with every maximal run of characters
    of the class [sep] replaced by one underscore, the other characters
    kept as they are. *)
Inductive collapsed (sep : char -> bool) : str -> str -> Prop :=
| collapsed_nil : collapsed sep [] []
| collapsed_keep (c : char) (s t : str) :
    sep c = false -> collapsed sep s t -> collapsed sep (c :: s) (c :: t)
| collapsed_run (run s t : str) :
    run <> [] -> Forall (fun c => sep c = true) run -> starts_plain sep s ->
    collapsed sep s t -> collapsed sep (run ++ s) (underscore :: t).

(** The paths a trace creates or writes, in the order of the trace. *)
Definition written (t : list Event) : list path :=
  flat_map (fun ev => match ev with
                      | EvMkdir p => [p]
                      | EvWriteFile p _ => [p]
                      | _ => []
                      end) t.

(** [subseq l1 l2]: [l1] is [l2] with some elements left out, the order
    kept. *)
Inductive subseq {A : Type} : list A -> list A -> Prop :=
| subseq_nil : subseq [] []
| subseq_skip (x : A) (l1 l2 : list A) : subseq l1 l2 -> subseq l1 (x :: l2)
| subseq_take (x : A) (l1 l2 : list A) :
    subseq l1 l2 -> subseq (x :: l1) (x :: l2).

(** A name that is one path component and stays where it is put: not
    empty, without slash, and neither "." nor "..". *)
Definition plain_name (name : str) : Prop :=
  name <> [] /\ ~ In slash name /\ name <> lit "." /\ name <> lit "..".

(** A change on disk happens at [root] or at most two plain components
    below it. *)
Definition contained (root : path) (ev : Event) : Prop :=
  match ev with
  | EvMkdir p | EvWriteFile p _ =>
      exists rest,
        p = root ++ rest /\ Forall plain_name rest
        /\ (List.length rest <= 2)%nat
  | _ => True
  end.

(** The request for the metadata of a title is made for titles that pass
    the classifier only. *)
Definition gated (rt : PyRuntime) (ev : Event) : Prop :=
  forall title, ev = imageinfo_event title -> is_logo_file rt title = true.

(** * Properties *)

(** ** Strings *)

Section StrFacts.

Lemma char_eqb_eq (a b : char) : char_eqb a b = true <-> a = b.
Proof. apply N.eqb_eq. Qed.

Lemma char_eqb_refl (a : char) : char_eqb a a = true.
Proof. apply N.eqb_refl. Qed.

Lemma startswith_iff (s p : str) :
  startswith s p = true <-> exists r, s = p ++ r.
Proof.
  revert s; induction p as [|a p IH]; intros s; simpl.
  - split; [intros _; now exists s | reflexivity].
  - destruct s as [|b s]; simpl.
    + split; [discriminate | intros [r Hr]; discriminate].
    + rewrite andb_true_iff, char_eqb_eq, IH. split.
      * intros [-> [r ->]]. now exists r.
      * intros [r Hr]. injection Hr as -> ->. split; [reflexivity | now exists r].
Qed.

Lemma startswith_app (p r : str) : startswith (p ++ r) p = true.
Proof. apply startswith_iff. now exists r. Qed.

Lemma contains_iff (k s : str) :
  contains k s = true <-> exists a b, s = a ++ k ++ b.
Proof.
  induction s as [|c s IH]; simpl.
  - rewrite orb_false_r, startswith_iff. split.
    + intros [r Hr]. exists [], r. exact Hr.
    + intros [a [b H]]. destruct a; simpl in H.
      * now exists b.
      * discriminate.
  - rewrite orb_true_iff, startswith_iff, IH. split.
    + intros [[r Hr] | [a [b H]]].
      * exists [], r. exact Hr.
      * exists (c :: a), b. simpl. now rewrite H.
    + intros [a [b H]]. destruct a as [|c' a]; simpl in H.
      * left. now exists b.
      * right. injection H as _ H. now exists a, b.
Qed.

Lemma contains_false_tail (k : str) (c : char) (s : str) :
  contains k (c :: s) = false -> contains k s = false.
Proof. simpl. intros H. apply orb_false_iff in H. apply H. Qed.

Lemma contains_false_head (k s : str) :
  contains k s = false -> startswith s k = false.
Proof.
  destruct s; simpl; intros H; apply orb_false_iff in H; apply H.
Qed.

Lemma endswith_iff (s p : str) :
  endswith s p = true <-> exists a, s = a ++ p.
Proof.
  unfold endswith. rewrite startswith_iff. split.
  - intros [r Hr]. exists (rev r).
    rewrite <- (rev_involutive s), Hr, rev_app_distr, rev_involutive.
    reflexivity.
  - intros [a ->]. exists (rev a). apply rev_app_distr.
Qed.

Lemma any_in_iff (keywords : list str) (s : str) :
  any_in keywords s = true <-> exists k, In k keywords /\ contains k s = true.
Proof. unfold any_in. apply existsb_exists. Qed.

(** Deleting ([repl] empty) is filtering. *)
Lemma re_sub_class_delete (cls : char -> bool) (s : str) :
  re_sub_class cls (lit "") s = filter (fun c => negb (cls c)) s.
Proof.
  induction s as [|c s IH]; simpl; [reflexivity|].
  destruct (cls c); simpl; now rewrite IH.
Qed.

Lemma re_sub_class_ext (cls1 cls2 : char -> bool) (repl s : str) :
  (forall c, In c s -> cls1 c = cls2 c) ->
  re_sub_class cls1 repl s = re_sub_class cls2 repl s.
Proof.
  induction s as [|c s IH]; simpl; intros H; [reflexivity|].
  rewrite (H c) by now left.
  rewrite IH by (intros; apply H; now right). reflexivity.
Qed.

Lemma re_sub_runs_from_ext (cls1 cls2 : char -> bool) (repl s : str) (b : bool) :
  (forall c, In c s -> cls1 c = cls2 c) ->
  re_sub_runs_from cls1 repl s b = re_sub_runs_from cls2 repl s b.
Proof.
  revert b; induction s as [|c s IH]; simpl; intros b H; [reflexivity|].
  rewrite (H c) by now left.
  rewrite !IH by (intros; apply H; now right). reflexivity.
Qed.

(** Nothing of the class: nothing changes. *)
Lemma re_sub_class_id (cls : char -> bool) (repl s : str) :
  Forall (fun c => cls c = false) s -> re_sub_class cls repl s = s.
Proof.
  induction 1 as [|c s Hc _ IH]; simpl; [reflexivity|].
  now rewrite Hc, IH.
Qed.

Lemma re_sub_runs_from_id (cls : char -> bool) (repl s : str) (b : bool) :
  Forall (fun c => cls c = false) s -> re_sub_runs_from cls repl s b = s.
Proof.
  intros H; revert b; induction H as [|c s Hc _ IH]; simpl; intros b;
    [reflexivity|].
  now rewrite Hc, IH.
Qed.

(** What a replaced text is made of: the replacement, and the characters
    outside the class. *)
Lemma re_sub_runs_from_Forall (P : char -> Prop) (cls : char -> bool)
  (repl s : str) (b : bool) :
  Forall P repl ->
  (forall c, In c s -> cls c = false -> P c) ->
  Forall P (re_sub_runs_from cls repl s b).
Proof.
  intros Hr; revert b; induction s as [|c s IH]; simpl; intros b H;
    [constructor|].
  assert (Hs : forall b', Forall P (re_sub_runs_from cls repl s b'))
    by (intros; apply IH; intros; apply H; [now right | assumption]).
  destruct (cls c) eqn:Hc.
  - apply Forall_app. split; [destruct b; [constructor | exact Hr] | apply Hs].
  - constructor; [apply H; [now left | exact Hc] | apply Hs].
Qed.

(** The text after a prefix is replaced knowing whether the prefix ended
    inside a run. *)
Lemma re_sub_runs_from_app (cls : char -> bool) (repl a s : str) (b : bool) :
  re_sub_runs_from cls repl (a ++ s) b =
  re_sub_runs_from cls repl a b
  ++ re_sub_runs_from cls repl s (fold_left (fun _ c => cls c) a b).
Proof.
  revert b; induction a as [|c a IH]; intros b; [reflexivity|].
  cbn [app re_sub_runs_from fold_left].
  destruct (cls c); rewrite IH.
  - now rewrite app_assoc.
  - reflexivity.
Qed.

Lemma filter_drop_one {A} (f : A -> bool) (a : list A) (c : A) (b : list A) :
  f c = false -> filter f (a ++ c :: b) = filter f (a ++ b).
Proof.
  intros Hc. rewrite !filter_app. simpl. now rewrite Hc.
Qed.

End StrFacts.

(** ** sanitize_filename *)

Section SanitizeFacts.

Variable rt : PyRuntime.

Local Abbreviation kept := (kept rt).

Lemma sanitize_filename_eq (name : str) :
  sanitize_filename rt name =
  firstn 50 (re_sub_runs_from (separator_char rt) [underscore]
               (filter kept name) false).
Proof.
  unfold sanitize_filename, slice_to, re_sub_runs.
  now rewrite re_sub_class_delete.
Qed.

Lemma kept_not_separator_is_word (c : char) :
  kept c = true -> separator_char rt c = false -> re_word rt c = true.
Proof.
  unfold kept, unsafe_char, separator_char. rewrite negb_involutive.
  intros Hk Hs. apply orb_false_iff in Hs as [Hh Hsp].
  rewrite Hh, Hsp, !orb_false_r in Hk. exact Hk.
Qed.

Lemma word_is_kept (c : char) : re_word rt c = true -> unsafe_char rt c = false.
Proof. unfold unsafe_char. now intros ->. Qed.

Lemma separator_is_kept (c : char) : separator_char rt c = true -> kept c = true.
Proof.
  unfold kept, unsafe_char, separator_char. rewrite negb_involutive.
  intros H. apply orb_true_iff in H as [-> | ->]; now rewrite ?orb_true_r.
Qed.

Lemma Forall_firstn {A} (P : A -> Prop) (n : nat) (l : list A) :
  Forall P l -> Forall P (firstn n l).
Proof.
  intros H; revert n; induction H as [|a l Ha _ IH]; intros [|n]; simpl;
    constructor; auto.
Qed.

(** Every character of the result is a word character: the underscore put
    for a run, or a kept character that is no separator. *)
Lemma sanitize_filename_word (name : str) :
  Forall (fun c => re_word rt c = true) (sanitize_filename rt name).
Proof.
  rewrite sanitize_filename_eq. apply Forall_firstn.
  apply re_sub_runs_from_Forall.
  - constructor; [|constructor]. unfold re_word.
    now rewrite char_eqb_refl, orb_true_r.
  - intros c Hin Hs. apply filter_In in Hin as [_ Hk].
    now apply kept_not_separator_is_word.
Qed.

Lemma sanitize_filename_length (name : str) :
  (List.length (sanitize_filename rt name) <= 50)%nat.
Proof. rewrite sanitize_filename_eq. apply firstn_le_length. Qed.

(** An unsafe character leaves no trace in the result. *)
Lemma sanitize_filename_drops_unsafe (a : str) (c : char) (b : str) :
  unsafe_char rt c = true ->
  sanitize_filename rt (a ++ c :: b) = sanitize_filename rt (a ++ b).
Proof.
  intros Hc. rewrite !sanitize_filename_eq.
  rewrite filter_drop_one; [reflexivity|]. unfold kept. now rewrite Hc.
Qed.

(** A separator next to a separator changes nothing: a run gives one
    underscore. *)
Lemma sanitize_filename_collapses_run (a : str) (c1 c2 : char) (b : str) :
  separator_char rt c1 = true -> separator_char rt c2 = true ->
  sanitize_filename rt (a ++ c1 :: c2 :: b) = sanitize_filename rt (a ++ c1 :: b).
Proof.
  intros H1 H2. rewrite !sanitize_filename_eq. f_equal.
  rewrite !filter_app. simpl.
  rewrite (separator_is_kept _ H1), (separator_is_kept _ H2).
  rewrite !re_sub_runs_from_app. f_equal. simpl. now rewrite H1, H2.
Qed.

Hypothesis Hrt : ascii_sound rt.

Lemma underscore_not_separator : separator_char rt underscore = false.
Proof.
  destruct Hrt as [_ [Hsp _]]. unfold separator_char.
  now rewrite Hsp.
Qed.

(** The result has only word characters that are no separators. *)
Lemma sanitize_filename_clean (name : str) :
  Forall (fun c => re_word rt c = true /\ separator_char rt c = false)
         (sanitize_filename rt name).
Proof.
  rewrite sanitize_filename_eq. apply Forall_firstn.
  apply re_sub_runs_from_Forall.
  - constructor; [|constructor]. split.
    + unfold re_word. now rewrite char_eqb_refl, orb_true_r.
    + apply underscore_not_separator.
  - intros c Hin Hs. apply filter_In in Hin as [_ Hk]. split.
    + now apply kept_not_separator_is_word.
    + exact Hs.
Qed.

(** On ASCII text the runtime's tables are the ASCII tables. *)
Lemma sanitize_filename_ascii (name : str) :
  forallb is_ascii name = true ->
  sanitize_filename rt name = sanitize_filename ascii_runtime name.
Proof.
  intros Ha. destruct Hrt as [Hal [Hsp _]].
  assert (Hin : forall c, In c name -> is_ascii c = true)
    by (apply forallb_forall; exact Ha).
  unfold sanitize_filename, re_sub_runs.
  rewrite (re_sub_class_ext (unsafe_char rt) (unsafe_char ascii_runtime)).
  - f_equal. apply re_sub_runs_from_ext.
    intros c Hc. rewrite re_sub_class_delete in Hc.
    apply filter_In in Hc as [Hc _].
    unfold separator_char. simpl. now rewrite Hsp by auto.
  - intros c Hc. unfold unsafe_char, re_word. simpl.
    now rewrite Hal, Hsp by auto.
Qed.

End SanitizeFacts.

Lemma filter_all {A} (f : A -> bool) (l : list A) :
  Forall (fun a => f a = true) l -> filter f l = l.
Proof.
  induction 1 as [|a l Ha _ IH]; simpl; [reflexivity|]. now rewrite Ha, IH.
Qed.

Lemma ascii_runtime_sound : ascii_sound ascii_runtime.
Proof. repeat split; intros; reflexivity. Qed.

(** Runs and their replacement, in the words of [collapsed]. *)

Lemma span_run (sep : char -> bool) (s : str) :
  exists run rest,
    s = run ++ rest /\ Forall (fun c => sep c = true) run /\ starts_plain sep rest.
Proof.
  induction s as [|c s (run & rest & -> & Hrun & Hrest)].
  - exists [], []. repeat split. constructor.
  - destruct (sep c) eqn:Hc.
    + exists (c :: run), rest. repeat split; [now constructor | exact Hrest].
    + exists [], (c :: run ++ rest). repeat split; [constructor | exact Hc].
Qed.

Lemma re_sub_runs_from_inside (sep : char -> bool) (run rest : str) :
  Forall (fun c => sep c = true) run -> starts_plain sep rest ->
  re_sub_runs_from sep [underscore] (run ++ rest) true
  = re_sub_runs_from sep [underscore] rest false.
Proof.
  intros Hrun Hrest. induction Hrun as [|c run Hc _ IH].
  - destruct rest as [|d rest]; [reflexivity|]. simpl in *. now rewrite Hrest.
  - simpl. now rewrite Hc.
Qed.

Lemma re_sub_runs_collapsed_upto (sep : char -> bool) (n : nat) (s : str) :
  (List.length s <= n)%nat ->
  collapsed sep s (re_sub_runs_from sep [underscore] s false).
Proof.
  revert s; induction n as [|n IH]; intros s Hlen.
  - destruct s; [constructor | simpl in Hlen; lia].
  - destruct s as [|c s]; [constructor|]. simpl in Hlen.
    destruct (sep c) eqn:Hc.
    + destruct (span_run sep s) as (run & rest & -> & Hrun & Hrest).
      cbn [re_sub_runs_from]. rewrite Hc. cbn [app].
      rewrite (@re_sub_runs_from_inside sep run rest Hrun Hrest).
      change (c :: run ++ rest) with ((c :: run) ++ rest).
      apply collapsed_run; [discriminate | now constructor | exact Hrest |].
      apply IH. rewrite length_app in Hlen. lia.
    + cbn [re_sub_runs_from]. rewrite Hc.
      apply collapsed_keep; [exact Hc | apply IH; lia].
Qed.

Lemma re_sub_runs_collapsed (sep : char -> bool) (s : str) :
  collapsed sep s (re_sub_runs_from sep [underscore] s false).
Proof. now apply re_sub_runs_collapsed_upto with (List.length s). Qed.

Lemma run_split_unique (sep : char -> bool) (run1 run2 s1 s2 : str) :
  Forall (fun c => sep c = true) run1 -> Forall (fun c => sep c = true) run2 ->
  starts_plain sep s1 -> starts_plain sep s2 ->
  run1 ++ s1 = run2 ++ s2 -> run1 = run2 /\ s1 = s2.
Proof.
  intros H1; revert run2; induction H1 as [|a run1 Ha _ IH];
    intros run2 H2 Hs1 Hs2 E.
  - destruct H2 as [|b run2 Hb _]; [now split|].
    simpl in E. subst s1. simpl in Hs1. congruence.
  - destruct H2 as [|b run2 Hb H2].
    + simpl in E. subst s2. simpl in Hs2. congruence.
    + simpl in E. injection E as -> E.
      destruct (IH run2 H2 Hs1 Hs2 E) as [-> ->]. now split.
Qed.

Lemma collapsed_unique (sep : char -> bool) (s t1 t2 : str) :
  collapsed sep s t1 -> collapsed sep s t2 -> t1 = t2.
Proof.
  intros H1; revert t2;
    induction H1 as [|c s t Hc _ IH|run s t Hne Hrun Hs _ IH]; intros t2 H2.
  - remember [] as x eqn:Ex.
    destruct H2 as [|c s t Hc _|run s t Hne Hrun _ _];
      [reflexivity | discriminate |].
    destruct run; [congruence | discriminate].
  - remember (c :: s) as x eqn:Ex.
    destruct H2 as [|c' s' t' Hc' H2|run s' t' Hne Hrun _ _];
      [discriminate | |].
    + injection Ex as -> ->. f_equal. now apply IH.
    + destruct Hrun as [|r run Hr _]; [congruence|].
      simpl in Ex. injection Ex as -> _. congruence.
  - remember (run ++ s) as x eqn:Ex.
    destruct H2 as [|c' s' t' Hc' _|run' s' t' Hne' Hrun' Hs' H2].
    + destruct run; [congruence | discriminate].
    + destruct Hrun as [|r run Hr _]; [congruence|].
      simpl in Ex. injection Ex as -> _. congruence.
    + destruct (@run_split_unique sep run' run s' s Hrun' Hrun Hs' Hs Ex)
        as [_ ->].
      f_equal. now apply IH.
Qed.

Lemma kept_explicit (rt : PyRuntime) (name : str) :
  filter (kept rt) name
  = filter (fun c => isalnum rt c || char_eqb c underscore
                     || isspace rt c || char_eqb c hyphen) name.
Proof.
  apply filter_ext. intros c. unfold kept, unsafe_char, re_word.
  apply negb_involutive.
Qed.

(** C7 (as amended).  For every company name the sanitized folder name has
    only alphanumeric characters and underscores and at most 50 characters.
    It is obtained by deleting every character that is neither a word
    character, nor whitespace, nor a hyphen (such a character leaves nothing
    behind, no underscore either) and by putting one underscore for every run
    of hyphens and whitespace: it is the first 50 characters of the one text
    that [collapsed] relates to the name without the deleted characters.
    "Coca-Cola, Inc." gives "Coca_Cola_Inc", with no comma and no period. *)
Theorem sanitize_filename_safe (rt : PyRuntime) :
  ascii_sound rt ->
  (forall name,
      Forall (fun c => isalnum rt c = true \/ c = underscore)
             (sanitize_filename rt name)
      /\ (List.length (sanitize_filename rt name) <= 50)%nat)
  /\ (forall a c b,
        unsafe_char rt c = true ->
        sanitize_filename rt (a ++ c :: b) = sanitize_filename rt (a ++ b))
  /\ (forall a c1 c2 b,
        separator_char rt c1 = true -> separator_char rt c2 = true ->
        sanitize_filename rt (a ++ c1 :: c2 :: b)
        = sanitize_filename rt (a ++ c1 :: b))
  /\ sanitize_filename rt (lit "Coca-Cola, Inc.") = lit "Coca_Cola_Inc"
  /\ ~ In comma (sanitize_filename rt (lit "Coca-Cola, Inc."))
  /\ ~ In period (sanitize_filename rt (lit "Coca-Cola, Inc."))
  /\ (forall name,
        let remaining :=
          filter (fun c => isalnum rt c || char_eqb c underscore
                           || isspace rt c || char_eqb c hyphen) name in
        let sep := fun c => char_eqb c hyphen || isspace rt c in
        (exists full,
            collapsed sep remaining full
            /\ sanitize_filename rt name = firstn 50 full)
        /\ (forall full,
              collapsed sep remaining full ->
              sanitize_filename rt name = firstn 50 full))
  /\ (forall name,
        sanitize_filename rt name
        = firstn 50
            (re_sub_runs_from (fun c => char_eqb c hyphen || isspace rt c)
               [underscore]
               (filter (fun c => isalnum rt c || char_eqb c underscore
                                 || isspace rt c || char_eqb c hyphen) name)
               false)).
Proof.
  intros Hrt.
  assert (Hex : sanitize_filename rt (lit "Coca-Cola, Inc.") = lit "Coca_Cola_Inc")
    by (rewrite sanitize_filename_ascii by (assumption || reflexivity);
        reflexivity).
  assert (Heq : forall name,
             sanitize_filename rt name
             = firstn 50
                 (re_sub_runs_from (fun c => char_eqb c hyphen || isspace rt c)
                    [underscore]
                    (filter (fun c => isalnum rt c || char_eqb c underscore
                                      || isspace rt c || char_eqb c hyphen) name)
                    false)).
  { intros name. rewrite sanitize_filename_eq, kept_explicit. reflexivity. }
  split; [|split; [|split; [|split; [|split; [|split; [|split]]]]]].
  - intros name. split; [|apply sanitize_filename_length].
    eapply Forall_impl; [|apply sanitize_filename_word].
    intros c Hc. unfold re_word in Hc. apply orb_true_iff in Hc as [Hc | Hc].
    + now left.
    + right. now apply char_eqb_eq.
  - intros a c b. apply sanitize_filename_drops_unsafe.
  - intros a c1 c2 b. apply sanitize_filename_collapses_run.
  - exact Hex.
  - rewrite Hex. vm_compute. intuition discriminate.
  - rewrite Hex. vm_compute. intuition discriminate.
  - intros name remaining sep.
    pose proof (re_sub_runs_collapsed sep remaining) as Hc. split.
    + eexists. split; [exact Hc | apply Heq].
    + intros full Hfull. rewrite Heq. f_equal.
      exact (@collapsed_unique sep remaining _ _ Hc Hfull).
  - exact Heq.
Qed.

Lemma sanitize_filename_safe_witness :
  let rt := ascii_runtime in
  (forall name,
      Forall (fun c => isalnum rt c = true \/ c = underscore)
             (sanitize_filename rt name)
      /\ (List.length (sanitize_filename rt name) <= 50)%nat)
  /\ (forall a c b,
        unsafe_char rt c = true ->
        sanitize_filename rt (a ++ c :: b) = sanitize_filename rt (a ++ b))
  /\ (forall a c1 c2 b,
        separator_char rt c1 = true -> separator_char rt c2 = true ->
        sanitize_filename rt (a ++ c1 :: c2 :: b)
        = sanitize_filename rt (a ++ c1 :: b))
  /\ sanitize_filename rt (lit "Coca-Cola, Inc.") = lit "Coca_Cola_Inc"
  /\ ~ In comma (sanitize_filename rt (lit "Coca-Cola, Inc."))
  /\ ~ In period (sanitize_filename rt (lit "Coca-Cola, Inc."))
  /\ (forall name,
        let remaining :=
          filter (fun c => isalnum rt c || char_eqb c underscore
                           || isspace rt c || char_eqb c hyphen) name in
        let sep := fun c => char_eqb c hyphen || isspace rt c in
        (exists full,
            collapsed sep remaining full
            /\ sanitize_filename rt name = firstn 50 full)
        /\ (forall full,
              collapsed sep remaining full ->
              sanitize_filename rt name = firstn 50 full))
  /\ (forall name,
        sanitize_filename rt name
        = firstn 50
            (re_sub_runs_from (fun c => char_eqb c hyphen || isspace rt c)
               [underscore]
               (filter (fun c => isalnum rt c || char_eqb c underscore
                                 || isspace rt c || char_eqb c hyphen) name)
               false)).
Proof.
  apply (@sanitize_filename_safe ascii_runtime).
  repeat split; intros; reflexivity.
Defined.

(** C7 as stated fails: the comma and the period are deleted, they are not
    collapsed to underscores. *)
Lemma sanitize_filename_not_collapse :
  sanitize_filename ascii_runtime (lit "a,b") = lit "ab"
  /\ collapse_unsafe ascii_runtime (lit "a,b") = lit "a_b"
  /\ sanitize_filename ascii_runtime (lit "Coca-Cola, Inc.")
     <> collapse_unsafe ascii_runtime (lit "Coca-Cola, Inc.").
Proof.
  split; [reflexivity | split; [reflexivity|]].
  vm_compute. discriminate.
Qed.

(** C10.  [sanitize_filename] is idempotent: sanitizing a sanitized name
    gives the same name. *)
Theorem sanitize_filename_idempotent (rt : PyRuntime) :
  ascii_sound rt ->
  forall s, sanitize_filename rt (sanitize_filename rt s) = sanitize_filename rt s.
Proof.
  intros Hrt s.
  pose proof (sanitize_filename_clean Hrt s) as Hclean.
  pose proof (sanitize_filename_length rt s) as Hlen.
  set (t := sanitize_filename rt s) in *.
  rewrite (sanitize_filename_eq rt t).
  rewrite filter_all.
  - rewrite re_sub_runs_from_id.
    + now apply firstn_all2.
    + eapply Forall_impl; [|exact Hclean]. now intros c [_ Hc].
  - eapply Forall_impl; [|exact Hclean]. intros c [Hc _].
    unfold kept. now rewrite word_is_kept.
Qed.

Lemma sanitize_filename_idempotent_witness :
  sanitize_filename ascii_runtime
    (sanitize_filename ascii_runtime (lit "Coca-Cola, Inc."))
  = sanitize_filename ascii_runtime (lit "Coca-Cola, Inc.").
Proof.
  apply (@sanitize_filename_idempotent ascii_runtime).
  repeat split; intros; reflexivity.
Defined.

(** ** is_logo_file *)

Section ClassifierFacts.

Variable rt : PyRuntime.

Lemma is_logo_file_skip (T : str) :
  has_skip_keyword (lower rt T) = true -> is_logo_file rt T = false.
Proof.
  unfold is_logo_file. intros ->. simpl. apply andb_false_r.
Qed.

Lemma is_logo_file_extension (T : str) :
  is_png_svg (lower rt T) = false -> is_logo_file rt T = false.
Proof.
  unfold is_logo_file. intros ->. now rewrite andb_false_r.
Qed.

Lemma is_logo_file_true (T : str) :
  is_logo_file rt T = true ->
  has_logo_keyword (lower rt T) = true
  /\ is_png_svg (lower rt T) = true
  /\ has_skip_keyword (lower rt T) = false.
Proof.
  unfold is_logo_file. intros H.
  apply andb_true_iff in H as [H Hs]. apply andb_true_iff in H as [Hl He].
  apply negb_true_iff in Hs. auto.
Qed.

Lemma is_logo_file_ascii (T : str) :
  ascii_sound rt -> forallb is_ascii T = true ->
  is_logo_file rt T = is_logo_file ascii_runtime T.
Proof.
  intros [_ [_ Hlow]] Ha. unfold is_logo_file. now rewrite Hlow.
Qed.

End ClassifierFacts.

(** C3.  A title whose lower-cased form contains an allow-list keyword and
    a deny-list keyword is no logo: the deny list overrides the allow list.
    "Wikidata_logo.png" is such a title. *)
Theorem deny_list_overrides_allow_list (rt : PyRuntime) :
  (forall T,
      (exists k, In k logo_keywords /\ contains k (lower rt T) = true) ->
      (exists k, In k skip_keywords /\ contains k (lower rt T) = true) ->
      is_logo_file rt T = false)
  /\ (ascii_sound rt ->
      contains (lit "logo") (lower rt (lit "Wikidata_logo.png")) = true
      /\ contains (lit "wikidata") (lower rt (lit "Wikidata_logo.png")) = true
      /\ is_logo_file rt (lit "Wikidata_logo.png") = false).
Proof.
  split.
  - intros T _ Hskip. apply is_logo_file_skip. now apply any_in_iff.
  - intros Hrt. rewrite is_logo_file_ascii by (assumption || reflexivity).
    destruct Hrt as [_ [_ Hlow]]. rewrite Hlow by reflexivity.
    repeat split; reflexivity.
Qed.

Lemma deny_list_overrides_allow_list_witness :
  is_logo_file ascii_runtime (lit "Wikidata_logo.png") = false.
Proof.
  apply (proj1 (deny_list_overrides_allow_list ascii_runtime)).
  - exists (lit "logo"). split; [simpl; tauto | reflexivity].
  - exists (lit "wikidata"). split; [simpl; tauto | reflexivity].
Defined.

(** C8.  A title whose lower-cased form ends neither in ".png" nor in
    ".svg" is no logo, whatever keywords it contains.  "Company_Logo.jpg"
    contains the allow-list keyword "logo" and no deny-list keyword, and is
    rejected. *)
Theorem other_extension_rejected (rt : PyRuntime) :
  (forall T,
      endswith (lower rt T) (lit ".png") = false ->
      endswith (lower rt T) (lit ".svg") = false ->
      is_logo_file rt T = false)
  /\ (ascii_sound rt ->
      has_logo_keyword (lower rt (lit "Company_Logo.jpg")) = true
      /\ has_skip_keyword (lower rt (lit "Company_Logo.jpg")) = false
      /\ is_logo_file rt (lit "Company_Logo.jpg") = false).
Proof.
  split.
  - intros T Hpng Hsvg. apply is_logo_file_extension.
    unfold is_png_svg. now rewrite Hpng, Hsvg.
  - intros Hrt. rewrite is_logo_file_ascii by (assumption || reflexivity).
    destruct Hrt as [_ [_ Hlow]]. rewrite Hlow by reflexivity.
    repeat split; reflexivity.
Qed.

Lemma other_extension_rejected_witness :
  is_logo_file ascii_runtime (lit "Company_Logo.jpg") = false.
Proof.
  apply (proj1 (other_extension_rejected ascii_runtime)); reflexivity.
Defined.

(** ** str.replace and the display filename *)

Lemma replace_from_skip (old new a s : str) :
  replace_from old new (a ++ s) (List.length a) = replace_from old new s 0.
Proof.
  induction a as [|c a IH]; simpl; [reflexivity | exact IH].
Qed.

(** A leading occurrence is replaced and the scan goes on behind it. *)
Lemma replace_leading (old new s : str) :
  old <> [] -> replace (old ++ s) old new = new ++ replace s old new.
Proof.
  destruct old as [|c o]; [congruence | intros _].
  unfold replace. cbn [app replace_from].
  change (c :: o ++ s) with ((c :: o) ++ s). rewrite startswith_app.
  f_equal. cbn [List.length]. rewrite Nat.sub_1_r. cbn [Nat.pred].
  apply replace_from_skip.
Qed.

(** Where no occurrence starts, the character is kept. *)
Lemma replace_keep (old new : str) (c : char) (s : str) :
  startswith (c :: s) old = false ->
  replace (c :: s) old new = c :: replace s old new.
Proof. unfold replace. cbn [replace_from]. now intros ->. Qed.

(** A text without occurrence is left as it is. *)
Lemma replace_absent (old new s : str) :
  contains old s = false -> replace s old new = s.
Proof.
  induction s as [|c s IH]; intros H; [reflexivity|].
  rewrite replace_keep by now apply contains_false_head.
  f_equal. apply IH. now apply contains_false_tail in H.
Qed.

Lemma logo_of_info_Some (file_title : str) (image_info : ImageInfo)
  (logo : LogoCandidate) :
  logo_of_info file_title image_info = Some logo ->
  accepts (lc_mime logo) (lc_width logo) = true
  /\ lc_mime logo = get_or (ii_mime image_info) (lit "")
  /\ lc_width logo = get_or (ii_width image_info) 0%Z
  /\ lc_filename logo = replace file_title (lit "File:") (lit "").
Proof.
  unfold logo_of_info.
  destruct (accepts _ _) eqn:Hacc; [|discriminate].
  intros H. injection H as <-. simpl. auto.
Qed.

(** C6 (as amended).  The display filename of a candidate is its media
    title with every occurrence of "File:" removed, found from left to
    right: a leading "File:" is removed and the rest is treated likewise; a
    character at which no "File:" starts is kept.  So a title in which
    "File:" occurs only as the leading token gives the title without it,
    and a title without "File:" is kept whole. *)
Theorem display_filename_removes_File
  (file_title : str) (image_info : ImageInfo) (logo : LogoCandidate) :
  logo_of_info file_title image_info = Some logo ->
  lc_filename logo = replace file_title (lit "File:") (lit "")
  /\ (forall rest,
        replace (lit "File:" ++ rest) (lit "File:") (lit "")
        = replace rest (lit "File:") (lit ""))
  /\ (forall c s,
        startswith (c :: s) (lit "File:") = false ->
        replace (c :: s) (lit "File:") (lit "")
        = c :: replace s (lit "File:") (lit ""))
  /\ (forall rest,
        file_title = lit "File:" ++ rest ->
        contains (lit "File:") rest = false ->
        lc_filename logo = rest)
  /\ (contains (lit "File:") file_title = false ->
      lc_filename logo = file_title).
Proof.
  intros H. apply logo_of_info_Some in H as [_ [_ [_ Hf]]].
  assert (Hlead : forall rest,
             replace (lit "File:" ++ rest) (lit "File:") (lit "")
             = replace rest (lit "File:") (lit "")).
  { intros rest. rewrite replace_leading by discriminate. reflexivity. }
  split; [exact Hf|]. split; [exact Hlead|]. split; [|split].
  - intros c s. apply replace_keep.
  - intros rest -> Hno. rewrite Hf, Hlead. now apply replace_absent.
  - intros Hno. rewrite Hf. now apply replace_absent.
Qed.

Lemma display_filename_removes_File_witness :
  lc_filename Demo.acme_logo = lit "Acme_logo.png".
Proof.
  destruct (@display_filename_removes_File
              (lit "File:Acme_logo.png") (Demo.image_info "image/png" 64 64)
              Demo.acme_logo eq_refl) as [_ [_ [_ [Hlead _]]]].
  apply Hlead; reflexivity.
Defined.

(** C6 as stated fails: a "File:" that is not leading is removed too. *)
Lemma display_filename_not_only_leading :
  option_map lc_filename
    (logo_of_info (lit "File:Logo File:Acme.png")
                  (Demo.image_info "image/png" 64 64))
  = Some (lit "Logo Acme.png")
  /\ strip_leading_File (lit "File:Logo File:Acme.png")
     = lit "Logo File:Acme.png"
  /\ option_map lc_filename
       (logo_of_info (lit "File:Logo File:Acme.png")
                     (Demo.image_info "image/png" 64 64))
     <> Some (strip_leading_File (lit "File:Logo File:Acme.png")).
Proof.
  split; [reflexivity | split; [reflexivity|]].
  vm_compute. discriminate.
Qed.

(** ** get_logo_info *)

Lemma accepts_iff (mime_type : str) (width : Z) :
  accepts mime_type width = true
  <-> contains (lit "png") mime_type = true
      \/ (contains (lit "svg") mime_type = true /\ (100 <= width)%Z).
Proof.
  unfold accepts. rewrite orb_true_iff, andb_true_iff, Z.leb_le. tauto.
Qed.

Lemma logo_of_info_iff (file_title : str) (image_info : ImageInfo) :
  (exists logo, logo_of_info file_title image_info = Some logo)
  <-> accepts (get_or (ii_mime image_info) (lit ""))
              (get_or (ii_width image_info) 0%Z) = true.
Proof.
  unfold logo_of_info. destruct (accepts _ _); split.
  - reflexivity.
  - intros _. eexists. reflexivity.
  - intros [logo H]. discriminate.
  - discriminate.
Qed.

(** One request, whatever the outcome; and never an exception. *)
Lemma get_logo_info_total World (env : Env World) (file_title : str) (w : World) :
  exists r w1 t,
    get_logo_info env file_title w = (Val r, w1, t)
    /\ filter is_network t = [EvHttpGet (imageinfo_request file_title)]
    /\ (forall logo, r = Some logo ->
          exists pages, logo_of_pages file_title pages = Some logo).
Proof.
  unfold get_logo_info, try_except, bind, requests_get, ask.
  destruct (http_get env (imageinfo_request file_title) w) as [[response|e] w1].
  - destruct (negb (status_code response =? 200)%Z).
    + simpl. do 3 eexists. repeat split. discriminate.
    + unfold response_pages. destruct (json response) as [pages|]; simpl.
      * do 3 eexists. repeat split. intros logo H. now exists pages.
      * do 3 eexists. repeat split. discriminate.
  - simpl. do 3 eexists. repeat split. discriminate.
Qed.

Lemma logo_of_pages_Some (file_title : str) (pages : Pages) (logo : LogoCandidate) :
  logo_of_pages file_title pages = Some logo ->
  exists image_info, logo_of_info file_title image_info = Some logo.
Proof.
  induction pages as [|[page_id page_data] rest IH]; simpl; [discriminate|].
  destruct (pd_imageinfo page_data) as [[|image_info more]|]; auto.
  destruct (logo_of_info file_title image_info) as [l|] eqn:H; auto.
  intros E. injection E as <-. now exists image_info.
Qed.

(** C1.  A metadata record is accepted, and a candidate built from it, if
    and only if its MIME type contains "png", or contains "svg" while its
    width is at least 100; this record decides what [get_logo_info] returns
    when the reply carries it.  "image/svg+xml" at width 80 is rejected, at
    width 150 accepted; "image/png" is accepted at every width. *)
Theorem get_logo_info_acceptance :
  (forall file_title image_info,
      (exists logo, logo_of_info file_title image_info = Some logo)
      <-> contains (lit "png") (get_or (ii_mime image_info) (lit "")) = true
          \/ (contains (lit "svg") (get_or (ii_mime image_info) (lit "")) = true
              /\ (100 <= get_or (ii_width image_info) 0)%Z))
  /\ (forall World (env : Env World) file_title w response w1
             page_id page_data image_info more,
        http_get env (imageinfo_request file_title) w = (Val response, w1) ->
        status_code response = 200%Z ->
        json response = Some [(page_id, page_data)] ->
        pd_imageinfo page_data = Some (image_info :: more) ->
        get_logo_info env file_title w
        = (Val (logo_of_info file_title image_info), w1,
           [EvHttpGet (imageinfo_request file_title)]))
  /\ (forall file_title url height size,
        logo_of_info file_title
          {| ii_url := url; ii_width := Some 80%Z; ii_height := height;
             ii_mime := Some (lit "image/svg+xml"); ii_size := size |} = None)
  /\ (forall file_title url height size,
        exists logo,
          logo_of_info file_title
            {| ii_url := url; ii_width := Some 150%Z; ii_height := height;
               ii_mime := Some (lit "image/svg+xml"); ii_size := size |}
          = Some logo)
  /\ (forall file_title url width height size,
        exists logo,
          logo_of_info file_title
            {| ii_url := url; ii_width := Some width; ii_height := height;
               ii_mime := Some (lit "image/png"); ii_size := size |}
          = Some logo).
Proof.
  split; [|split; [|split; [|split]]].
  - intros file_title image_info.
    rewrite logo_of_info_iff. apply accepts_iff.
  - intros World env file_title w response w1 page_id page_data image_info more
           Hget Hst Hjson Hii.
    unfold get_logo_info, try_except, bind, requests_get, ask, response_pages.
    rewrite Hget, Hst, Hjson. simpl. rewrite Hii.
    now destruct (logo_of_info file_title image_info).
  - reflexivity.
  - intros. eexists. reflexivity.
  - intros. eexists. reflexivity.
Qed.

Lemma get_logo_info_acceptance_witness :
  get_logo_info (Demo.env Demo.infos) (lit "File:Acme_wordmark.svg") 0
  = (Val (logo_of_info (lit "File:Acme_wordmark.svg")
                       (Demo.image_info "image/svg+xml" 200 50)),
     1, [EvHttpGet (imageinfo_request (lit "File:Acme_wordmark.svg"))]).
Proof.
  destruct get_logo_info_acceptance as [_ [H _]].
  eapply H; reflexivity.
Defined.

(** ** main *)

Lemma main_with_arguments_creates_dir (rt : PyRuntime) World (env : Env World)
  (argv : list str) (w : World) :
  (2 <= List.length argv)%nat ->
  exists t, snd (main rt env argv w) = EvMkdir [lit "company_logos"] :: t.
Proof.
  intros Hlen. unfold main.
  destruct (Nat.ltb_spec (List.length argv) 2) as [Hlt|_]; [lia|].
  unfold bind at 1. unfold new_LogoFetcher, bind at 1, ask.
  destruct (fs_mkdir env [lit "company_logos"] w) as [[[]|e] w1]; simpl.
  - match goal with |- context [bind ?m ?f ?x] => destruct (bind m f x) as [[r w2] t2] end.
    simpl. eexists. reflexivity.
  - eexists. reflexivity.
Qed.

(** C9.  Invoked without a company name ([sys.argv] holds the script name
    only), [main] prints the usage text and returns normally: the world is
    left as it was, nothing is asked of the network, no directory is created
    (the logo directory neither) and no file is written. *)
Theorem main_without_arguments (rt : PyRuntime) World (env : Env World)
  (argv : list str) (w : World) :
  (List.length argv < 2)%nat ->
  main rt env argv w = (Val tt, w, [EvPrint MsgUsage])
  /\ filter is_network (snd (main rt env argv w)) = []
  /\ filter is_fs_change (snd (main rt env argv w)) = []
  /\ ~ In (EvMkdir [lit "company_logos"]) (snd (main rt env argv w)).
Proof.
  intros Hlen.
  assert (E : main rt env argv w = (Val tt, w, [EvPrint MsgUsage])).
  { unfold main. destruct (Nat.ltb_spec (List.length argv) 2) as [_|Hge];
      [reflexivity | lia]. }
  rewrite E. simpl. repeat split. intros [H|[]]. discriminate.
Qed.

Lemma main_without_arguments_witness :
  main ascii_runtime (Demo.env Demo.infos) [lit "fetch-logos-only.py"] 0
  = (Val tt, 0, [EvPrint MsgUsage])
  /\ filter is_network
       (snd (main ascii_runtime (Demo.env Demo.infos) [lit "fetch-logos-only.py"] 0))
     = []
  /\ filter is_fs_change
       (snd (main ascii_runtime (Demo.env Demo.infos) [lit "fetch-logos-only.py"] 0))
     = []
  /\ ~ In (EvMkdir [lit "company_logos"])
       (snd (main ascii_runtime (Demo.env Demo.infos) [lit "fetch-logos-only.py"] 0)).
Proof.
  apply (@main_without_arguments ascii_runtime nat (Demo.env Demo.infos)
           [lit "fetch-logos-only.py"] 0).
  simpl. lia.
Defined.

(** ** Running the monad *)

Section MonadFacts.

Variable World : Type.

Lemma bind_val {A B} (m : M World A) (f : A -> M World B)
  (w w1 w2 : World) (a : A) (r : Outcome B) (t1 t2 : list Event) :
  m w = (Val a, w1, t1) -> f a w1 = (r, w2, t2) ->
  bind m f w = (r, w2, t1 ++ t2).
Proof. unfold bind. now intros -> ->. Qed.

Lemma bind_exn {A B} (m : M World A) (f : A -> M World B)
  (w w1 : World) (e : str) (t1 : list Event) :
  m w = (Exn e, w1, t1) -> bind m f w = (Exn e, w1, t1).
Proof. unfold bind. now intros ->. Qed.

Lemma try_val {A} (m : M World A) (handler : str -> M World A)
  (w w1 : World) (a : A) (t1 : list Event) :
  m w = (Val a, w1, t1) -> try_except m handler w = (Val a, w1, t1).
Proof. unfold try_except. now intros ->. Qed.

Lemma try_exn {A} (m : M World A) (handler : str -> M World A)
  (w w1 w2 : World) (e : str) (r : Outcome A) (t1 t2 : list Event) :
  m w = (Exn e, w1, t1) -> handler e w1 = (r, w2, t2) ->
  try_except m handler w = (r, w2, t1 ++ t2).
Proof. unfold try_except. now intros -> ->. Qed.

End MonadFacts.

(** ** The resolution of the company name *)

Section ResolverFacts.

Variable World : Type.
Variable env : Env World.

Lemma first_existing_cons (v : str) (vs : list str) (w : World) :
  first_existing env (v :: vs) w =
  match wiki_exists env v w with
  | (Val (Some title), w1) =>
      (Val (Some {| wp_variation := v; wp_title := title |}), w1,
       [EvWikiExists v])
  | (Val None, w1) =>
      match first_existing env vs w1 with
      | (r, w2, t) => (r, w2, EvWikiExists v :: t)
      end
  | (Exn e, w1) => (Exn e, w1, [EvWikiExists v])
  end.
Proof.
  cbn [first_existing]. unfold bind, ask.
  destruct (wiki_exists env v w) as [[[title|]|e] w1]; reflexivity.
Qed.

(** The first variation that exists ends the search: the variations after
    it are not asked for. *)
Lemma first_existing_found (pre : list str) (v : str) (post : list str)
  (title : str) (w w1 w2 : World) :
  misses env pre w w1 ->
  wiki_exists env v w1 = (Val (Some title), w2) ->
  first_existing env (pre ++ v :: post) w
  = (Val (Some {| wp_variation := v; wp_title := title |}), w2,
     map EvWikiExists (pre ++ [v])).
Proof.
  intros Hm Hv. induction Hm as [w|u us w wa wb Hu _ IH].
  - simpl app. rewrite first_existing_cons, Hv. reflexivity.
  - rewrite <- !app_comm_cons, first_existing_cons, Hu, (IH Hv).
    reflexivity.
Qed.

Lemma first_existing_none (vs : list str) (w w' : World) :
  misses env vs w w' ->
  first_existing env vs w = (Val None, w', map EvWikiExists vs).
Proof.
  induction 1 as [w|u us w wa wb Hu _ IH]; [reflexivity|].
  rewrite first_existing_cons, Hu, IH. reflexivity.
Qed.

(** Whatever the encyclopedia answers, the titles asked for are the first
    variations of the list, in the order of the list. *)
Lemma first_existing_asks_prefix (vs : list str) (w : World) :
  exists n, snd (first_existing env vs w) = map EvWikiExists (firstn n vs).
Proof.
  revert w; induction vs as [|v vs IH]; intros w.
  - exists 0%nat. reflexivity.
  - rewrite first_existing_cons.
    destruct (wiki_exists env v w) as [[[title|]|e] w1].
    + exists 1%nat. reflexivity.
    + destruct (IH w1) as [n Hn].
      destruct (first_existing env vs w1) as [[r w2] t]. simpl in *.
      exists (S n). simpl. now rewrite Hn.
    + exists 1%nat. reflexivity.
Qed.

End ResolverFacts.

(** C4.  The resolution tries the variations [name], "[name], Inc.",
    "[name] Inc.", "The [name] Company", in this order and no other title.
    The first variation that exists is returned and no later one is asked
    for: when only the third exists, three questions are asked and the
    third variation's article is returned.  When none exists the result is
    absent, and [find_company_logos] returns no logo. *)
Theorem name_resolution_first_match (rt : PyRuntime) World (env : Env World)
  (company_name : str) :
  search_variations company_name
  = [ company_name; company_name ++ lit ", Inc."; company_name ++ lit " Inc.";
      lit "The " ++ company_name ++ lit " Company" ]
  /\ (forall w, exists n,
        snd (first_existing env (search_variations company_name) w)
        = map EvWikiExists (firstn n (search_variations company_name)))
  /\ (forall pre v post title w w1 w2,
        search_variations company_name = pre ++ v :: post ->
        misses env pre w w1 ->
        wiki_exists env v w1 = (Val (Some title), w2) ->
        first_existing env (search_variations company_name) w
        = (Val (Some {| wp_variation := v; wp_title := title |}), w2,
           map EvWikiExists (pre ++ [v])))
  /\ (forall title w w1 w2 w3,
        wiki_exists env company_name w = (Val None, w1) ->
        wiki_exists env (company_name ++ lit ", Inc.") w1 = (Val None, w2) ->
        wiki_exists env (company_name ++ lit " Inc.") w2
        = (Val (Some title), w3) ->
        first_existing env (search_variations company_name) w
        = (Val (Some {| wp_variation := company_name ++ lit " Inc.";
                        wp_title := title |}), w3,
           [ EvWikiExists company_name;
             EvWikiExists (company_name ++ lit ", Inc.");
             EvWikiExists (company_name ++ lit " Inc.") ]))
  /\ (forall w w',
        misses env (search_variations company_name) w w' ->
        first_existing env (search_variations company_name) w
        = (Val None, w', map EvWikiExists (search_variations company_name))
        /\ find_company_logos rt env company_name w
           = (Val [], w',
              EvPrint (MsgSearching company_name)
              :: map EvWikiExists (search_variations company_name)
              ++ [EvPrint (MsgNoPage company_name)])).
Proof.
  split; [reflexivity|]. split; [|split; [|split]].
  - intros w. apply first_existing_asks_prefix.
  - intros pre v post title w w1 w2 -> Hm Hv.
    eapply first_existing_found; eassumption.
  - intros title w w1 w2 w3 H1 H2 H3.
    apply (@first_existing_found World env
             [company_name; company_name ++ lit ", Inc."]
             (company_name ++ lit " Inc.")
             [lit "The " ++ company_name ++ lit " Company"] title w w2 w3);
      [|exact H3].
    econstructor; [exact H1|]. econstructor; [exact H2|]. constructor.
  - intros w w' Hm.
    pose proof (first_existing_none Hm) as Hnone. split; [exact Hnone|].
    unfold find_company_logos, try_except, bind, print, ret.
    cbv beta iota. rewrite Hnone. reflexivity.
Qed.

Lemma name_resolution_first_match_witness :
  first_existing (Demo.env Demo.infos) (search_variations (lit "Acme")) 0
  = (Val (Some {| wp_variation := lit "Acme Inc.";
                  wp_title := lit "Acme Corporation" |}), 3,
     [ EvWikiExists (lit "Acme"); EvWikiExists (lit "Acme, Inc.");
       EvWikiExists (lit "Acme Inc.") ]).
Proof.
  destruct (@name_resolution_first_match ascii_runtime nat
              (Demo.env Demo.infos) (lit "Acme")) as [_ [_ [_ [H _]]]].
  apply (H (lit "Acme Corporation") 0 1 2 3); reflexivity.
Defined.

(** ** The scan of the references *)

Section PipelineFacts.

Variable rt : PyRuntime.
Variable World : Type.
Variable env : Env World.

Local Abbreviation passes := (is_logo_file rt).

Lemma somes_app {A} (a b : list (option A)) : somes (a ++ b) = somes a ++ somes b.
Proof. apply flat_map_app. Qed.

Lemma fetch_each_app (a b : list str) (w : World) :
  fetch_each env (a ++ b) w =
  (fst (fetch_each env a w) ++ fst (fetch_each env b (snd (fetch_each env a w))),
   snd (fetch_each env b (snd (fetch_each env a w)))).
Proof.
  revert w; induction a as [|title a IH]; intros w.
  - simpl. now destruct (fetch_each env b w).
  - cbn [app fetch_each].
    destruct (get_logo_info env title w) as [[r w1] t1].
    rewrite IH. destruct (fetch_each env a w1) as [ra wa]. reflexivity.
Qed.

(** Every candidate among the answers was built by [get_logo_info] from a
    title of the list. *)
Lemma fetch_each_sound (titles : list str) (w : World) (logo : LogoCandidate) :
  In logo (somes (fst (fetch_each env titles w))) ->
  exists title image_info,
    In title titles /\ logo_of_info title image_info = Some logo.
Proof.
  revert w; induction titles as [|title rest IH]; intros w; [intros []|].
  cbn [fetch_each].
  destruct (get_logo_info_total env title w) as (r & w1 & t1 & Hg & _ & Hr).
  rewrite Hg. destruct (fetch_each env rest w1) as [rs w2] eqn:Hf.
  cbn [fst somes flat_map]. intros Hin. apply in_app_or in Hin as [Hin|Hin].
  - destruct r as [l|]; [|destruct Hin]. destruct Hin as [->|[]].
    destruct (Hr logo eq_refl) as [pages Hp].
    apply logo_of_pages_Some in Hp as [image_info Hi].
    exists title, image_info. split; [now left | exact Hi].
  - destruct (IH w1) as (title' & image_info & Hin' & Hi).
    + rewrite Hf. exact Hin.
    + exists title', image_info. split; [now right | exact Hi].
Qed.

(** When the answer to a title does not depend on the moment it is asked,
    the answers are the image of the list. *)
Lemma fetch_each_pure (fetch : str -> option LogoCandidate)
  (titles : list str) (w : World) :
  (forall title w0, fst (fst (get_logo_info env title w0)) = Val (fetch title)) ->
  fst (fetch_each env titles w) = map fetch titles.
Proof.
  intros Hpure. revert w; induction titles as [|title rest IH]; intros w;
    [reflexivity|].
  cbn [fetch_each map]. specialize (Hpure title w).
  destruct (get_logo_info env title w) as [[r w1] t1]. simpl in Hpure.
  specialize (IH w1). destruct (fetch_each env rest w1) as [rs w2].
  simpl in *. now rewrite Hpure, IH.
Qed.

(** The loop over the images: every title that passes the classifier is
    asked for, once and in listing order; the titles that do not pass are
    not; the candidates found are appended in that order. *)
Lemma scan_images_spec (images_list : list str) (logos : list LogoCandidate)
  (w : World) :
  exists t,
    scan_images rt env images_list logos w
    = (Val (logos ++ somes (fst (fetch_each env (filter passes images_list) w))),
       snd (fetch_each env (filter passes images_list) w), t)
    /\ filter is_network t = map imageinfo_event (filter passes images_list).
Proof.
  revert logos w; induction images_list as [|title rest IH]; intros logos w.
  - exists []. simpl. now rewrite app_nil_r.
  - cbn [scan_images filter]. destruct (passes title) eqn:Hp.
    + destruct (get_logo_info_total env title w) as (r & w1 & t1 & Hg & Hn & _).
      cbn [fetch_each]. rewrite Hg.
      destruct r as [logo|].
      * destruct (IH (logos ++ [logo]) w1) as (t2 & Hs & Hn2).
        destruct (fetch_each env (filter passes rest) w1) as [rs w2].
        cbn [fst snd] in *. rewrite <- app_assoc in Hs.
        eexists. split.
        -- eapply bind_val; [reflexivity|].
           eapply bind_val; [exact Hg|]. cbv beta iota.
           eapply bind_val; [reflexivity | exact Hs].
        -- cbn [app filter is_network map]. rewrite filter_app, Hn.
           cbn [app filter is_network]. now rewrite Hn2.
      * destruct (IH logos w1) as (t2 & Hs & Hn2).
        destruct (fetch_each env (filter passes rest) w1) as [rs w2].
        cbn [fst snd] in *.
        eexists. split.
        -- eapply bind_val; [reflexivity|].
           eapply bind_val; [exact Hg | exact Hs].
        -- cbn [app filter is_network map]. rewrite filter_app, Hn.
           cbn [app]. now rewrite Hn2.
    + apply IH.
Qed.

(** The loop over the entries of the reply: the references of all entries
    are scanned in listing order. *)
Lemma scan_pages_spec (pages : Pages) (logos : list LogoCandidate) (w : World) :
  exists t,
    scan_pages rt env pages logos w
    = (Val (logos ++ somes (fst (fetch_each env (filter passes (all_images pages)) w))),
       snd (fetch_each env (filter passes (all_images pages)) w), t)
    /\ filter is_network t = map imageinfo_event (filter passes (all_images pages)).
Proof.
  revert logos w; induction pages as [|[page_id page_data] rest IH];
    intros logos w.
  - exists []. simpl. now rewrite app_nil_r.
  - cbn [scan_pages all_images flat_map snd].
    fold (all_images rest).
    destruct (pd_images page_data) as [images_list|]; cbn [get_or].
    + rewrite filter_app, fetch_each_app, map_app.
      destruct (scan_images_spec images_list logos w) as (t1 & Hs1 & Hn1).
      set (f1 := fetch_each env (filter passes images_list) w) in *.
      destruct (IH (logos ++ somes (fst f1)) (snd f1)) as (t2 & Hs2 & Hn2).
      eexists. split.
      * eapply bind_val; [reflexivity|].
        eapply bind_val; [exact Hs1|]. rewrite Hs2.
        cbn [fst snd]. now rewrite somes_app, app_assoc.
      * cbn [app filter is_network]. rewrite filter_app, Hn1, Hn2.
        reflexivity.
    + destruct (IH logos w) as (t2 & Hs2 & Hn2).
      eexists. split.
      * eapply bind_val; [reflexivity | exact Hs2].
      * cbn [app filter is_network]. exact Hn2.
Qed.

End PipelineFacts.

(** ** find_company_logos *)

Section FindFacts.

Variable rt : PyRuntime.
Variable World : Type.
Variable env : Env World.

Local Abbreviation passes := (is_logo_file rt).

Lemma filter_network_wiki (titles : list str) :
  filter is_network (map EvWikiExists titles) = map EvWikiExists titles.
Proof. induction titles as [|v vs IH]; simpl; now rewrite ?IH. Qed.

Lemma first_existing_trace_network (vs : list str) (w w1 : World)
  (r : Outcome (option WikiPage)) (t1 : list Event) :
  first_existing env vs w = (r, w1, t1) -> filter is_network t1 = t1.
Proof.
  intros H. destruct (first_existing_asks_prefix env vs w) as [n Hn].
  rewrite H in Hn. simpl in Hn. subst t1. apply filter_network_wiki.
Qed.

(** The path on which an article is found and its references are listed. *)
Lemma find_company_logos_scan (company_name : str) (w w1 w2 : World)
  (page : WikiPage) (t1 : list Event) (response : Response) (pages : Pages) :
  first_existing env (search_variations company_name) w
  = (Val (Some page), w1, t1) ->
  http_get env (images_request (wp_title page)) w1 = (Val response, w2) ->
  status_code response = 200%Z ->
  json response = Some pages ->
  exists t,
    find_company_logos rt env company_name w
    = (Val (somes (fst (fetch_each env (filter passes (all_images pages)) w2))),
       snd (fetch_each env (filter passes (all_images pages)) w2), t)
    /\ filter is_network t
       = t1 ++ EvHttpGet (images_request (wp_title page))
            :: map imageinfo_event (filter passes (all_images pages)).
Proof.
  intros Hfirst Hget Hst Hjson.
  destruct (scan_pages_spec rt env pages [] w2) as (ts & Hscan & Hn).
  cbn [app] in Hscan.
  eexists. split.
  - unfold find_company_logos. eapply try_val.
    eapply bind_val; [reflexivity|].
    eapply bind_val; [exact Hfirst|]. cbv beta iota.
    eapply bind_val; [reflexivity|].
    eapply bind_val; [unfold requests_get, ask; rewrite Hget; reflexivity|].
    rewrite Hst. cbn [Z.eqb Pos.eqb negb].
    eapply bind_val; [unfold response_pages; rewrite Hjson; reflexivity|].
    exact Hscan.
  - cbn [app filter is_network]. rewrite filter_app.
    rewrite (first_existing_trace_network _ _ Hfirst).
    cbn [app filter is_network]. now rewrite Hn.
Qed.

(** On every path [find_company_logos] returns a list: the empty one, or
    the candidates of the references that pass the classifier. *)
Lemma find_company_logos_cases (company_name : str) (w : World) :
  (exists w' t, find_company_logos rt env company_name w = (Val [], w', t))
  \/ (exists pages w2 t,
        find_company_logos rt env company_name w
        = (Val (somes (fst (fetch_each env (filter passes (all_images pages)) w2))),
           snd (fetch_each env (filter passes (all_images pages)) w2), t)).
Proof.
  destruct (first_existing env (search_variations company_name) w)
    as [[[[page|]|e] w1] t1] eqn:Hfirst.
  - destruct (http_get env (images_request (wp_title page)) w1)
      as [[response|e] w2] eqn:Hget.
    + destruct (status_code response =? 200)%Z eqn:Hst.
      * apply Z.eqb_eq in Hst.
        destruct (json response) as [pages|] eqn:Hjson.
        -- right. destruct (@find_company_logos_scan company_name w w1 w2 page t1
                       response pages Hfirst Hget Hst Hjson)
             as (t & Hfind & _).
           now exists pages, w2, t.
        -- left. do 2 eexists. unfold find_company_logos.
           eapply try_exn; [|reflexivity].
           eapply bind_val; [reflexivity|].
           eapply bind_val; [exact Hfirst|]. cbv beta iota.
           eapply bind_val; [reflexivity|].
           eapply bind_val; [unfold requests_get, ask; rewrite Hget; reflexivity|].
           rewrite Hst. cbn [Z.eqb Pos.eqb negb].
           eapply bind_exn. unfold response_pages. rewrite Hjson. reflexivity.
      * left. do 2 eexists. unfold find_company_logos. eapply try_val.
        eapply bind_val; [reflexivity|].
        eapply bind_val; [exact Hfirst|]. cbv beta iota.
        eapply bind_val; [reflexivity|].
        eapply bind_val; [unfold requests_get, ask; rewrite Hget; reflexivity|].
        rewrite Hst. cbn [negb]. reflexivity.
    + left. do 2 eexists. unfold find_company_logos.
      eapply try_exn; [|reflexivity].
      eapply bind_val; [reflexivity|].
      eapply bind_val; [exact Hfirst|]. cbv beta iota.
      eapply bind_val; [reflexivity|].
      eapply bind_exn. unfold requests_get, ask. rewrite Hget. reflexivity.
  - left. do 2 eexists. unfold find_company_logos. eapply try_val.
    eapply bind_val; [reflexivity|].
    eapply bind_val; [exact Hfirst|]. reflexivity.
  - left. do 2 eexists. unfold find_company_logos.
    eapply try_exn; [|reflexivity].
    eapply bind_val; [reflexivity|].
    eapply bind_exn. exact Hfirst.
Qed.

(** Every candidate returned was built from a title that passed the
    classifier. *)
Lemma find_company_logos_origin (company_name : str) (w w' : World)
  (logos : list LogoCandidate) (t : list Event) (logo : LogoCandidate) :
  find_company_logos rt env company_name w = (Val logos, w', t) ->
  In logo logos ->
  exists img_title image_info,
    passes img_title = true /\ logo_of_info img_title image_info = Some logo.
Proof.
  intros Hfind Hin.
  destruct (find_company_logos_cases company_name w)
    as [(w0 & t0 & H) | (pages & w2 & t0 & H)];
    rewrite H in Hfind; injection Hfind as <- _ _.
  - destruct Hin.
  - apply fetch_each_sound in Hin as (title & image_info & Hin & Hi).
    apply filter_In in Hin as [_ Hp].
    now exists title, image_info.
Qed.

End FindFacts.

(** C5.  When an article is found and its references are listed, the
    candidates [find_company_logos] returns are, in listing order, what
    [get_logo_info] yields for the references that pass [is_logo_file]:
    nothing is sorted, and every passing reference is asked for, once and in
    listing order, whatever the earlier ones gave; a reference that does not
    pass is not asked for.  When the answer to a title does not depend on the
    moment of the request, the result is the image of the passing references
    under that answer, without the absent ones. *)
Theorem pipeline_keeps_listing_order (rt : PyRuntime) World (env : Env World)
  (company_name : str) (w w1 w2 : World) (page : WikiPage) (t1 : list Event)
  (response : Response) (pages : Pages) :
  first_existing env (search_variations company_name) w
  = (Val (Some page), w1, t1) ->
  http_get env (images_request (wp_title page)) w1 = (Val response, w2) ->
  status_code response = 200%Z ->
  json response = Some pages ->
  exists t,
    find_company_logos rt env company_name w
    = (Val (somes (fst (fetch_each env
                          (filter (is_logo_file rt) (all_images pages)) w2))),
       snd (fetch_each env (filter (is_logo_file rt) (all_images pages)) w2),
       t)
    /\ filter is_network t
       = t1 ++ EvHttpGet (images_request (wp_title page))
            :: map imageinfo_event (filter (is_logo_file rt) (all_images pages))
    /\ (forall fetch,
          (forall title w0,
              fst (fst (get_logo_info env title w0)) = Val (fetch title)) ->
          fst (fst (find_company_logos rt env company_name w))
          = Val (somes (map fetch (filter (is_logo_file rt) (all_images pages))))).
Proof.
  intros Hfirst Hget Hst Hjson.
  destruct (@find_company_logos_scan rt World env company_name w w1 w2 page t1
              response pages Hfirst Hget Hst Hjson) as (t & Hfind & Hnet).
  exists t. split; [exact Hfind | split; [exact Hnet|]].
  intros fetch Hpure. rewrite Hfind. cbn [fst].
  now rewrite (fetch_each_pure env fetch _ w2 Hpure).
Qed.

Lemma pipeline_keeps_listing_order_witness :
  exists t,
    find_company_logos ascii_runtime (Demo.env Demo.infos) (lit "Acme") 0
    = (Val [Demo.acme_logo; Demo.acme_wordmark "image/svg+xml" 200 50], 6, t)
    /\ filter is_network t
       = [ EvWikiExists (lit "Acme"); EvWikiExists (lit "Acme, Inc.");
           EvWikiExists (lit "Acme Inc.");
           EvHttpGet (images_request (lit "Acme Corporation"));
           imageinfo_event (lit "File:Acme_logo.png");
           imageinfo_event (lit "File:Acme_wordmark.svg") ].
Proof.
  destruct (@pipeline_keeps_listing_order ascii_runtime nat
              (Demo.env Demo.infos) (lit "Acme") 0 3 4
              {| wp_variation := lit "Acme Inc.";
                 wp_title := lit "Acme Corporation" |}
              [ EvWikiExists (lit "Acme"); EvWikiExists (lit "Acme, Inc.");
                EvWikiExists (lit "Acme Inc.") ]
              (Demo.reply Demo.infos (images_request (lit "Acme Corporation")))
              [(lit "7", {| pd_images := Some Demo.images;
                            pd_imageinfo := None |})]
              eq_refl eq_refl eq_refl eq_refl) as (t & Hfind & Hnet & _).
  exists t. split; [exact Hfind | exact Hnet].
Defined.

(** ** The candidates *)

Lemma skip_keywords_lower (k : str) :
  In k skip_keywords -> forallb is_ascii k = true /\ ascii_lower k = k.
Proof.
  intros H. simpl in H.
  repeat (destruct H as [<-|H]; [split; reflexivity|]). destruct H.
Qed.

Lemma skip_keyword_in_title (rt : PyRuntime) (k T : str) :
  lower_keeps rt -> In k skip_keywords -> contains k T = true ->
  has_skip_keyword (lower rt T) = true.
Proof.
  intros Hkeep Hk Hc. apply contains_iff in Hc as (a & b & ->).
  destruct (@skip_keywords_lower k Hk) as [Ha Hl].
  destruct (Hkeep a k b Ha Hl) as (a' & b' & E).
  apply any_in_iff. exists k. split; [exact Hk|].
  apply contains_iff. now exists a', b'.
Qed.

Lemma ascii_runtime_lower_keeps : lower_keeps ascii_runtime.
Proof.
  intros a k b _ Hk. exists (ascii_lower a), (ascii_lower b).
  simpl. unfold ascii_lower in *. now rewrite !map_app, Hk.
Qed.

(** C2 as stated fails: a MIME type that contains "svg" and "png" is
    accepted at any width. *)
Lemma narrow_svg_candidate_returned :
  fst (fst (find_company_logos ascii_runtime (Demo.env Demo.infos_both)
              (lit "Acme") 0))
  = Val [Demo.acme_logo; Demo.acme_wordmark "image/svg+xml; alt=png" 50 12]
  /\ contains (lit "svg")
       (lc_mime (Demo.acme_wordmark "image/svg+xml; alt=png" 50 12)) = true
  /\ ~ (100 <= lc_width (Demo.acme_wordmark "image/svg+xml; alt=png" 50 12))%Z.
Proof.
  split; [vm_compute; reflexivity | split; [reflexivity|]].
  simpl. lia.
Qed.

(** * Further properties of the script *)

(** ** The records of a reply *)

Lemma logo_of_pages_cons (file_title : str) (page_id : str)
  (page_data : PageData) (rest : Pages) :
  logo_of_pages file_title ((page_id, page_data) :: rest) =
  match first_record page_data with
  | Some image_info =>
      match logo_of_info file_title image_info with
      | Some logo => Some logo
      | None => logo_of_pages file_title rest
      end
  | None => logo_of_pages file_title rest
  end.
Proof.
  unfold first_record. cbn [logo_of_pages].
  now destruct (pd_imageinfo page_data) as [[|image_info more]|].
Qed.

Lemma first_record_first_records (entry : str * PageData) :
  first_record (snd entry)
  = first_record
      {| pd_images := pd_images (snd entry);
         pd_imageinfo :=
           match pd_imageinfo (snd entry) with
           | Some (image_info :: _) => Some [image_info]
           | other => other
           end |}.
Proof.
  unfold first_record. simpl.
  now destruct (pd_imageinfo (snd entry)) as [[|image_info more]|].
Qed.

(** Only the first [imageinfo] record of an entry counts, and the first
    entry whose first record is accepted decides: [get_logo_info] finds a
    candidate exactly when the reply splits into entries whose first record
    is missing or rejected, followed by an entry whose first record is
    accepted; later records of an entry change nothing, also when the
    first one is rejected. *)
Theorem logo_of_pages_first_accepted (file_title : str) (pages : Pages) :
  (forall logo,
      logo_of_pages file_title pages = Some logo <->
      exists before page_id page_data image_info after,
        pages = before ++ (page_id, page_data) :: after
        /\ first_record page_data = Some image_info
        /\ logo_of_info file_title image_info = Some logo
        /\ Forall (fun entry =>
                     forall info, first_record (snd entry) = Some info ->
                                  logo_of_info file_title info = None) before)
  /\ logo_of_pages file_title (first_records pages)
     = logo_of_pages file_title pages.
Proof.
  split.
  - intros logo. induction pages as [|[page_id page_data] rest IH].
    + split; [discriminate|].
      intros (before & p & d & i & after & E & _). now destruct before.
    + rewrite logo_of_pages_cons. split.
      * destruct (first_record page_data) as [image_info|] eqn:Hf.
        -- destruct (logo_of_info file_title image_info) as [l|] eqn:Hl.
           ++ intros E. injection E as ->.
              exists [], page_id, page_data, image_info, rest.
              repeat split; auto.
           ++ intros H. apply IH in H
                as (before & p & d & i & after & -> & Hd & Hi & Hb).
              exists ((page_id, page_data) :: before), p, d, i, after.
              repeat split; auto. constructor; [|exact Hb].
              simpl. intros info Hinfo. congruence.
        -- intros H. apply IH in H
             as (before & p & d & i & after & -> & Hd & Hi & Hb).
           exists ((page_id, page_data) :: before), p, d, i, after.
           repeat split; auto. constructor; [|exact Hb].
           simpl. intros info Hinfo. congruence.
      * intros (before & p & d & i & after & E & Hd & Hi & Hb).
        destruct before as [|entry before].
        -- simpl in E. injection E as <- <- <-. now rewrite Hd, Hi.
        -- simpl in E. injection E as <- ->.
           apply Forall_cons_iff in Hb as [Hentry Hb]. simpl in Hentry.
           assert (Hrest : logo_of_pages file_title
                             (before ++ (p, d) :: after) = Some logo)
             by (apply IH; exists before, p, d, i, after; auto).
           destruct (first_record page_data) as [info|].
           ++ now rewrite (Hentry info eq_refl).
           ++ exact Hrest.
  - induction pages as [|[page_id page_data] rest IH]; [reflexivity|].
    cbn [first_records map fst snd]. fold (first_records rest).
    rewrite !logo_of_pages_cons, IH.
    pose proof (first_record_first_records (page_id, page_data)) as E.
    cbn [snd] in E. now rewrite <- E.
Qed.

(** A record without a [mime] entry is never accepted.  A record without a
    [width] entry is accepted exactly when its MIME type contains "png", and
    the candidate then has width 0; absent [height] and [size] become 0 and
    an absent [url] stays absent. *)
Theorem logo_of_info_missing_keys (file_title : str) (image_info : ImageInfo) :
  (ii_mime image_info = None -> logo_of_info file_title image_info = None)
  /\ (ii_width image_info = None ->
      ((exists logo, logo_of_info file_title image_info = Some logo)
       <-> contains (lit "png") (get_or (ii_mime image_info) (lit "")) = true))
  /\ (forall logo,
        logo_of_info file_title image_info = Some logo ->
        lc_url logo = ii_url image_info
        /\ (ii_width image_info = None -> lc_width logo = 0%Z)
        /\ (ii_height image_info = None -> lc_height logo = 0%Z)
        /\ (ii_size image_info = None -> lc_size logo = 0%Z)).
Proof.
  split; [|split].
  - unfold logo_of_info. now intros ->.
  - intros Hw. rewrite logo_of_info_iff, accepts_iff, Hw. simpl.
    split; [intros [H|[_ H]]; [exact H | lia] | now left].
  - unfold logo_of_info. destruct (accepts _ _); [|discriminate].
    intros logo E. injection E as <-. simpl.
    repeat split; now intros ->.
Qed.

Lemma logo_of_info_missing_keys_witness :
  logo_of_info (lit "File:Acme_logo.png")
    {| ii_url := None; ii_width := Some 640%Z; ii_height := Some 480%Z;
       ii_mime := None; ii_size := None |} = None.
Proof.
  apply (proj1 (logo_of_info_missing_keys (lit "File:Acme_logo.png")
                  {| ii_url := None; ii_width := Some 640%Z;
                     ii_height := Some 480%Z;
                     ii_mime := None; ii_size := None |})).
  reflexivity.
Defined.

(** ** More on is_logo_file *)

Lemma contains_trans (k1 k2 s : str) :
  contains k1 k2 = true -> contains k2 s = true -> contains k1 s = true.
Proof.
  rewrite !contains_iff. intros (a & b & ->) (c & d & ->).
  exists (c ++ a), (b ++ d). now rewrite <- !app_assoc.
Qed.

Lemma any_in_covered (full core : list str) (s : str) :
  forallb (fun k => existsb (fun k' => contains k' k) core) full = true ->
  any_in full s = true -> any_in core s = true.
Proof.
  intros Hcov H. apply any_in_iff in H as (k & Hk & Hc).
  rewrite forallb_forall in Hcov. specialize (Hcov k Hk).
  apply existsb_exists in Hcov as (k' & Hk' & Hc').
  apply any_in_iff. exists k'. split; [exact Hk'|].
  now apply contains_trans with k.
Qed.

Lemma any_in_same (l1 l2 : list str) (s : str) :
  forallb (fun k => existsb (fun k' => contains k' k) l2) l1 = true ->
  forallb (fun k => existsb (fun k' => contains k' k) l1) l2 = true ->
  any_in l1 s = any_in l2 s.
Proof.
  intros H12 H21.
  destruct (any_in l1 s) eqn:E1, (any_in l2 s) eqn:E2; try reflexivity.
  - now rewrite (any_in_covered l1 l2 s H12 E1) in E2.
  - now rewrite (any_in_covered l2 l1 s H21 E2) in E1.
Qed.

(** Six keywords decide nothing: "wordmark" and "trademark" contain
    "mark", "company_logo" and "logotype" contain "logo", "wikidata" and
    "wikimedia" contain "wiki".  Every title is classified the same with
    the shorter lists. *)
Theorem is_logo_file_redundant_keywords (rt : PyRuntime) (filename : str) :
  has_logo_keyword (lower rt filename)
  = any_in logo_keywords_core (lower rt filename)
  /\ has_skip_keyword (lower rt filename)
     = any_in skip_keywords_core (lower rt filename)
  /\ is_logo_file rt filename
     = (any_in logo_keywords_core (lower rt filename)
        && is_png_svg (lower rt filename)
        && negb (any_in skip_keywords_core (lower rt filename))).
Proof.
  assert (Hl : forall s, has_logo_keyword s = any_in logo_keywords_core s)
    by (intros s; apply any_in_same; reflexivity).
  assert (Hs : forall s, has_skip_keyword s = any_in skip_keywords_core s)
    by (intros s; apply any_in_same; reflexivity).
  unfold is_logo_file. now rewrite <- Hl, <- Hs.
Qed.

Lemma ascii_lower_upper_char (c : char) :
  ascii_lower_char (ascii_upper_char c) = ascii_lower_char c.
Proof.
  unfold ascii_lower_char, ascii_upper_char.
  destruct (N.leb_spec 97 c), (N.leb_spec c 122); simpl;
    repeat match goal with
           | |- context [N.leb ?a ?b] => destruct (N.leb_spec a b); simpl
           end; lia.
Qed.

Lemma ascii_upper_is_ascii (s : str) :
  forallb is_ascii s = true -> forallb is_ascii (ascii_upper s) = true.
Proof.
  induction s as [|c s IH]; simpl; [reflexivity|].
  rewrite !andb_true_iff. intros [Hc Hs]. split; [|now apply IH].
  unfold is_ascii, ascii_upper_char in *. apply N.ltb_lt in Hc.
  apply N.ltb_lt. destruct (N.leb 97 c && N.leb c 122); lia.
Qed.

Lemma ascii_lower_upper (s : str) : ascii_lower (ascii_upper s) = ascii_lower s.
Proof.
  unfold ascii_lower, ascii_upper. rewrite map_map.
  apply map_ext. apply ascii_lower_upper_char.
Qed.

(** The case of ASCII letters does not matter: an ASCII title written in
    capitals is classified like the title itself, and two ASCII titles
    that differ in case only are classified alike. *)
Theorem is_logo_file_ignores_case (rt : PyRuntime) :
  ascii_sound rt ->
  (forall T,
      forallb is_ascii T = true ->
      is_logo_file rt (ascii_upper T) = is_logo_file rt T)
  /\ (forall T1 T2,
        forallb is_ascii T1 = true -> forallb is_ascii T2 = true ->
        ascii_lower T1 = ascii_lower T2 ->
        is_logo_file rt T1 = is_logo_file rt T2).
Proof.
  intros (_ & _ & Hlow). split.
  - intros T HT. unfold is_logo_file.
    rewrite (Hlow _ (ascii_upper_is_ascii T HT)), (Hlow _ HT).
    now rewrite ascii_lower_upper.
  - intros T1 T2 H1 H2 E. unfold is_logo_file.
    now rewrite (Hlow _ H1), (Hlow _ H2), E.
Qed.

Lemma is_logo_file_ignores_case_witness :
  is_logo_file ascii_runtime (ascii_upper (lit "File:Acme_logo.png"))
  = is_logo_file ascii_runtime (lit "File:Acme_logo.png").
Proof.
  apply (proj1 (@is_logo_file_ignores_case ascii_runtime
                  (conj (fun c _ => eq_refl)
                        (conj (fun c _ => eq_refl) (fun s _ => eq_refl))))).
  reflexivity.
Defined.

(** ** More on sanitize_filename *)

Section SanitizeMore.

Variable rt : PyRuntime.

Lemma sanitize_filename_swap_separator (a : str) (c1 c2 : char) (b : str) :
  separator_char rt c1 = true -> separator_char rt c2 = true ->
  sanitize_filename rt (a ++ c1 :: b) = sanitize_filename rt (a ++ c2 :: b).
Proof.
  intros H1 H2. rewrite !sanitize_filename_eq. f_equal.
  rewrite !filter_app. simpl.
  rewrite (separator_is_kept _ _ H1), (separator_is_kept _ _ H2).
  rewrite !re_sub_runs_from_app. f_equal. simpl. now rewrite H1, H2.
Qed.

Lemma re_sub_runs_from_nil (cls : char -> bool) (s : str) (b : bool) :
  re_sub_runs_from cls [underscore] s false = [] -> s = [].
Proof.
  destruct s as [|c s]; [reflexivity|]. simpl.
  destruct (cls c); discriminate.
Qed.

Lemma filter_nil_iff {A} (f : A -> bool) (l : list A) :
  filter f l = [] <-> Forall (fun a => f a = false) l.
Proof.
  induction l as [|a l IH]; simpl.
  - split; [constructor | reflexivity].
  - destruct (f a) eqn:Ha; split.
    + discriminate.
    + intros H. apply Forall_cons_iff in H as [H _]. congruence.
    + intros H. constructor; [exact Ha | now apply IH].
    + intros H. apply Forall_cons_iff in H as [_ H]. now apply IH.
Qed.

Lemma sanitize_filename_empty_iff (name : str) :
  sanitize_filename rt name = [] <->
  Forall (fun c => unsafe_char rt c = true) name.
Proof.
  rewrite sanitize_filename_eq. split.
  - intros H.
    assert (Hr : re_sub_runs_from (separator_char rt) [underscore]
                   (filter (kept rt) name) false = []).
    { destruct (re_sub_runs_from _ _ _ _); [reflexivity | discriminate]. }
    apply (re_sub_runs_from_nil _ _ false) in Hr.
    apply filter_nil_iff in Hr. eapply Forall_impl; [|exact Hr].
    intros c Hc. unfold kept in Hc. now apply negb_false_iff in Hc.
  - intros H.
    assert (Hf : filter (kept rt) name = []).
    { apply filter_nil_iff. eapply Forall_impl; [|exact H].
      intros c Hc. unfold kept. now rewrite Hc. }
    now rewrite Hf.
Qed.

End SanitizeMore.

(** Hyphens and whitespace are interchangeable: two names that differ in
    one separator get the same folder, as "Coca-Cola" and "Coca Cola" do. *)
Theorem sanitize_filename_separators_collide (rt : PyRuntime) :
  ascii_sound rt ->
  (forall a c1 c2 b,
      separator_char rt c1 = true -> separator_char rt c2 = true ->
      sanitize_filename rt (a ++ c1 :: b) = sanitize_filename rt (a ++ c2 :: b))
  /\ (forall a b,
        sanitize_filename rt (a ++ hyphen :: b)
        = sanitize_filename rt (a ++ space :: b)).
Proof.
  intros (_ & Hsp & _). split.
  - intros a c1 c2 b. apply sanitize_filename_swap_separator.
  - intros a b. apply sanitize_filename_swap_separator.
    + reflexivity.
    + unfold separator_char. now rewrite Hsp.
Qed.

Lemma sanitize_filename_separators_collide_witness :
  sanitize_filename ascii_runtime (lit "Coca" ++ hyphen :: lit "Cola")
  = sanitize_filename ascii_runtime (lit "Coca" ++ space :: lit "Cola").
Proof.
  apply (proj2 (@sanitize_filename_separators_collide ascii_runtime
                  (conj (fun c _ => eq_refl)
                        (conj (fun c _ => eq_refl) (fun s _ => eq_refl))))).
Defined.

(** The sanitized name is empty exactly when the name has no word
    character, no whitespace and no hyphen (the empty name is such a name);
    the folder of such a company is the logo directory itself. *)
Theorem sanitize_filename_empty (rt : PyRuntime) (name : str) (dir : path) :
  (sanitize_filename rt name = []
   <-> Forall (fun c => unsafe_char rt c = true) name)
  /\ (Forall (fun c => unsafe_char rt c = true) name ->
      path_join dir (sanitize_filename rt name) = dir)
  /\ (~ Forall (fun c => unsafe_char rt c = true) name ->
      path_join dir (sanitize_filename rt name)
      = dir ++ [sanitize_filename rt name]).
Proof.
  split; [apply sanitize_filename_empty_iff | split].
  - intros H. apply sanitize_filename_empty_iff in H. now rewrite H.
  - intros H. destruct (sanitize_filename rt name) eqn:E; [|reflexivity].
    apply sanitize_filename_empty_iff in E. contradiction.
Qed.

Lemma sanitize_filename_empty_witness :
  path_join [lit "company_logos"] (sanitize_filename ascii_runtime (lit "!?."))
  = [lit "company_logos"].
Proof.
  apply (proj1 (proj2 (sanitize_filename_empty ascii_runtime (lit "!?.")
                         [lit "company_logos"]))).
  repeat constructor.
Defined.

(** ** Reasoning about runs *)

Section RunFacts.

Variable World : Type.

Lemma spec_ret {A} (P : Event -> Prop) (Q : A -> Prop) (a : A) :
  Q a -> spec P Q (ret a : M World A).
Proof.
  intros Hq w. simpl. split; [constructor|].
  intros a' E. now injection E as <-.
Qed.

Lemma spec_raise {A} (P : Event -> Prop) (Q : A -> Prop) (e : str) :
  spec P Q (raise e : M World A).
Proof. intros w. simpl. split; [constructor | discriminate]. Qed.

Lemma spec_print (P : Event -> Prop) (Q : unit -> Prop) (m : Msg) :
  P (EvPrint m) -> Q tt -> spec P Q (print m : M World unit).
Proof.
  intros Hp Hq w. simpl. split; [now constructor|]. now intros [].
Qed.

Lemma spec_sleep (P : Event -> Prop) (Q : unit -> Prop) (seconds : Z) :
  P (EvSleep seconds) -> Q tt -> spec P Q (sleep seconds : M World unit).
Proof.
  intros Hp Hq w. simpl. split; [now constructor|]. now intros [].
Qed.

Lemma spec_ask {A} (P : Event -> Prop) (Q : A -> Prop) (ev : Event)
  (f : World -> Outcome A * World) :
  P ev -> (forall a, Q a) -> spec P Q (ask ev f).
Proof.
  intros Hp Hq w. unfold ask. destruct (f w) as [r w1]. simpl.
  split; [now constructor | auto].
Qed.

Lemma spec_bind {A B} (P : Event -> Prop) (Q1 : A -> Prop) (Q2 : B -> Prop)
  (m : M World A) (f : A -> M World B) :
  spec P Q1 m -> (forall a, Q1 a -> spec P Q2 (f a)) -> spec P Q2 (bind m f).
Proof.
  intros Hm Hf w. unfold bind. specialize (Hm w).
  destruct (m w) as [[[a|e] w1] t1]; simpl in Hm; destruct Hm as [Ht Hq].
  - specialize (Hf a (Hq a eq_refl) w1).
    destruct (f a w1) as [[r w2] t2]. simpl in *. destruct Hf as [Ht2 Hq2].
    split; [apply Forall_app; now split | exact Hq2].
  - simpl. split; [exact Ht | discriminate].
Qed.

Lemma spec_try {A} (P : Event -> Prop) (Q : A -> Prop)
  (m : M World A) (handler : str -> M World A) :
  spec P Q m -> (forall e, spec P Q (handler e)) ->
  spec P Q (try_except m handler).
Proof.
  intros Hm Hh w. unfold try_except. specialize (Hm w).
  destruct (m w) as [[[a|e] w1] t1]; simpl in Hm; destruct Hm as [Ht Hq].
  - simpl. split; [exact Ht | exact Hq].
  - specialize (Hh e w1). destruct (handler e w1) as [[r w2] t2].
    simpl in *. destruct Hh as [Ht2 Hq2].
    split; [apply Forall_app; now split | exact Hq2].
Qed.

Lemma spec_weaken {A} (P : Event -> Prop) (Q Q' : A -> Prop) (m : M World A) :
  spec P Q m -> (forall a, Q a -> Q' a) -> spec P Q' m.
Proof.
  intros Hm Hq w. destruct (Hm w) as [Ht Ha]. split; [exact Ht | auto].
Qed.

Lemma safe_ret {A} (a : A) : safe (ret a : M World A).
Proof. intros w. now exists a. Qed.

Lemma safe_print (m : Msg) : safe (print m : M World unit).
Proof. intros w. now exists tt. Qed.

Lemma safe_sleep (seconds : Z) : safe (sleep seconds : M World unit).
Proof. intros w. now exists tt. Qed.

Lemma safe_bind {A B} (m : M World A) (f : A -> M World B) :
  safe m -> (forall a, safe (f a)) -> safe (bind m f).
Proof.
  intros Hm Hf w. unfold bind. destruct (Hm w) as [a Ha].
  destruct (m w) as [[r w1] t1]. simpl in Ha. subst r.
  destruct (Hf a w1) as [b Hb]. destruct (f a w1) as [[r w2] t2].
  simpl in *. now exists b.
Qed.

Lemma safe_try {A} (m : M World A) (handler : str -> M World A) :
  (forall e, safe (handler e)) -> safe (try_except m handler).
Proof.
  intros Hh w. unfold try_except. destruct (m w) as [[[a|e] w1] t1].
  - now exists a.
  - destruct (Hh e w1) as [b Hb]. destruct (handler e w1) as [[r w2] t2].
    simpl in *. now exists b.
Qed.

End RunFacts.

(** ** What the methods ask of the world *)

Section LookupRuns.

Variable rt : PyRuntime.
Variable World : Type.
Variable env : Env World.
Variable P : Event -> Prop.
Hypothesis HP : permits_lookup P.

Lemma get_logo_info_run (file_title : str) :
  spec P any_value (get_logo_info env file_title).
Proof.
  destruct HP as (Hprint & _ & Hinfo & _).
  unfold get_logo_info. apply spec_try.
  - apply spec_bind with (Q1 := any_value).
    + unfold requests_get. apply spec_ask; [apply Hinfo | easy].
    + intros response _. destruct (negb _); [now apply spec_ret|].
      apply spec_bind with (Q1 := any_value).
      * unfold response_pages. destruct (json response).
        -- now apply spec_ret.
        -- apply spec_raise.
      * intros pages _. now apply spec_ret.
  - intros e. apply spec_bind with (Q1 := any_value).
    + now apply spec_print.
    + intros _ _. now apply spec_ret.
Qed.

Lemma first_existing_run (variations : list str) :
  spec P any_value (first_existing env variations).
Proof.
  destruct HP as (_ & Hwiki & _).
  induction variations as [|v vs IH]; cbn [first_existing].
  - now apply spec_ret.
  - apply spec_bind with (Q1 := any_value).
    + apply spec_ask; [apply Hwiki | easy].
    + intros [title|] _; [now apply spec_ret | exact IH].
Qed.

Lemma scan_images_run (images_list : list str) (logos : list LogoCandidate) :
  spec P any_value (scan_images rt env images_list logos).
Proof.
  pose proof HP as (Hprint & _).
  revert logos; induction images_list as [|title rest IH]; intros logos;
    cbn [scan_images].
  - now apply spec_ret.
  - destruct (is_logo_file rt title); [|apply IH].
    apply spec_bind with (Q1 := any_value); [now apply spec_print|].
    intros _ _. apply spec_bind with (Q1 := any_value);
      [apply get_logo_info_run|].
    intros [logo|] _; [|apply IH].
    apply spec_bind with (Q1 := any_value); [now apply spec_print|].
    intros _ _. apply IH.
Qed.

Lemma scan_pages_run (pages : Pages) (logos : list LogoCandidate) :
  spec P any_value (scan_pages rt env pages logos).
Proof.
  pose proof HP as (Hprint & _).
  revert logos; induction pages as [|[page_id page_data] rest IH];
    intros logos; cbn [scan_pages].
  - now apply spec_ret.
  - destruct (pd_images page_data) as [images_list|].
    + apply spec_bind with (Q1 := any_value); [now apply spec_print|].
      intros _ _. apply spec_bind with (Q1 := any_value);
        [apply scan_images_run|].
      intros logos1 _. apply IH.
    + apply spec_bind with (Q1 := any_value); [now apply spec_print|].
      intros _ _. apply IH.
Qed.

Lemma find_company_logos_run (company_name : str) :
  spec P any_value (find_company_logos rt env company_name).
Proof.
  pose proof HP as (Hprint & _ & _ & Himages).
  unfold find_company_logos. apply spec_try.
  - apply spec_bind with (Q1 := any_value); [now apply spec_print|].
    intros _ _. apply spec_bind with (Q1 := any_value);
      [apply first_existing_run|].
    intros [page|] _.
    + apply spec_bind with (Q1 := any_value); [now apply spec_print|].
      intros _ _. apply spec_bind with (Q1 := any_value).
      * unfold requests_get. apply spec_ask; [apply Himages | easy].
      * intros response _. destruct (negb _).
        -- apply spec_bind with (Q1 := any_value); [now apply spec_print|].
           intros _ _. now apply spec_ret.
        -- apply spec_bind with (Q1 := any_value).
           ++ unfold response_pages. destruct (json response).
              ** now apply spec_ret.
              ** apply spec_raise.
           ++ intros pages _. apply scan_pages_run.
    + apply spec_bind with (Q1 := any_value); [now apply spec_print|].
      intros _ _. now apply spec_ret.
  - intros e. apply spec_bind with (Q1 := any_value);
      [now apply spec_print|].
    intros _ _. now apply spec_ret.
Qed.

End LookupRuns.

Lemma get_logo_info_safe World (env : Env World) (file_title : str) :
  safe (get_logo_info env file_title).
Proof.
  unfold get_logo_info. apply safe_try. intros e.
  apply safe_bind; [apply safe_print | intros; apply safe_ret].
Qed.

Lemma find_company_logos_safe (rt : PyRuntime) World (env : Env World)
  (company_name : str) :
  safe (find_company_logos rt env company_name).
Proof.
  unfold find_company_logos. apply safe_try. intros e.
  apply safe_bind; [apply safe_print | intros; apply safe_ret].
Qed.

Lemma read_only_permitted : permits_lookup read_only.
Proof. repeat split. Qed.

(** [find_company_logos] never raises: whatever the encyclopedia and the
    network do, it returns a list.  It only looks things up: it creates no
    directory, writes no file and takes no pause. *)
Theorem find_company_logos_total_read_only (rt : PyRuntime) World
  (env : Env World) (company_name : str) (w : World) :
  (exists logos, fst (fst (find_company_logos rt env company_name w)) = Val logos)
  /\ filter is_fs_change (snd (find_company_logos rt env company_name w)) = []
  /\ filter is_sleep (snd (find_company_logos rt env company_name w)) = [].
Proof.
  split; [apply find_company_logos_safe|].
  destruct (find_company_logos_run rt env read_only_permitted company_name w)
    as [Ht _].
  induction Ht as [|ev t [Hfs Hsl] _ [IH1 IH2]]; [now split|].
  simpl. rewrite Hfs, Hsl. now split.
Qed.

(** ** Failures of the lookups *)

(** [get_logo_info] turns every failure into "no candidate": a request that
    raises and a reply that is no JSON give [None] after one error line; a
    status other than 200 gives [None] silently; in each case exactly one
    request was made.  Only a 200 reply with JSON is searched for a
    record. *)
Theorem get_logo_info_failures World (env : Env World) (file_title : str)
  (w : World) :
  (forall e w1,
      http_get env (imageinfo_request file_title) w = (Exn e, w1) ->
      get_logo_info env file_title w
      = (Val None, w1,
         [EvHttpGet (imageinfo_request file_title);
          EvPrint (MsgLogoInfoError e)]))
  /\ (forall response w1,
        http_get env (imageinfo_request file_title) w = (Val response, w1) ->
        status_code response <> 200%Z ->
        get_logo_info env file_title w
        = (Val None, w1, [EvHttpGet (imageinfo_request file_title)]))
  /\ (forall response w1,
        http_get env (imageinfo_request file_title) w = (Val response, w1) ->
        status_code response = 200%Z ->
        json response = None ->
        exists e,
          get_logo_info env file_title w
          = (Val None, w1,
             [EvHttpGet (imageinfo_request file_title);
              EvPrint (MsgLogoInfoError e)]))
  /\ (forall response w1 pages,
        http_get env (imageinfo_request file_title) w = (Val response, w1) ->
        status_code response = 200%Z ->
        json response = Some pages ->
        get_logo_info env file_title w
        = (Val (logo_of_pages file_title pages), w1,
           [EvHttpGet (imageinfo_request file_title)])).
Proof.
  unfold get_logo_info, try_except, bind, requests_get, ask, response_pages.
  repeat split.
  - intros e w1 ->. reflexivity.
  - intros response w1 -> Hst. apply Z.eqb_neq in Hst. now rewrite Hst.
  - intros response w1 -> Hst Hj. rewrite Hst, Hj. eexists. reflexivity.
  - intros response w1 pages -> Hst Hj. rewrite Hst, Hj. reflexivity.
Qed.

Lemma get_logo_info_failures_witness :
  get_logo_info Faulty.offline (lit "File:Acme_logo.png") 0
  = (Val None, 1,
     [EvHttpGet (imageinfo_request (lit "File:Acme_logo.png"));
      EvPrint (MsgLogoInfoError (lit "ConnectionError"))]).
Proof.
  apply (proj1 (get_logo_info_failures Faulty.offline
                  (lit "File:Acme_logo.png") 0)).
  reflexivity.
Defined.

(** [find_company_logos] answers every failure with the empty list: when
    the existence check raises, when the listing request raises, and when
    the listing comes back with a status other than 200 (then no JSON is
    read and no metadata is asked for). *)
Theorem find_company_logos_failures (rt : PyRuntime) World (env : Env World)
  (company_name : str) (w : World) :
  (forall e w1 t1,
      first_existing env (search_variations company_name) w = (Exn e, w1, t1) ->
      find_company_logos rt env company_name w
      = (Val [], w1,
         EvPrint (MsgSearching company_name)
         :: t1 ++ [EvPrint (MsgFindError company_name e)]))
  /\ (forall page w1 t1 e w2,
        first_existing env (search_variations company_name) w
        = (Val (Some page), w1, t1) ->
        http_get env (images_request (wp_title page)) w1 = (Exn e, w2) ->
        find_company_logos rt env company_name w
        = (Val [], w2,
           EvPrint (MsgSearching company_name)
           :: t1 ++ [EvPrint (MsgFoundPage (wp_title page));
                     EvHttpGet (images_request (wp_title page));
                     EvPrint (MsgFindError company_name e)]))
  /\ (forall page w1 t1 response w2,
        first_existing env (search_variations company_name) w
        = (Val (Some page), w1, t1) ->
        http_get env (images_request (wp_title page)) w1 = (Val response, w2) ->
        status_code response <> 200%Z ->
        find_company_logos rt env company_name w
        = (Val [], w2,
           EvPrint (MsgSearching company_name)
           :: t1 ++ [EvPrint (MsgFoundPage (wp_title page));
                     EvHttpGet (images_request (wp_title page));
                     EvPrint (MsgApiFailed (status_code response))])).
Proof.
  unfold find_company_logos, try_except, bind, requests_get, ask, print, ret.
  repeat split.
  - intros e w1 t1 ->. cbn [app]. reflexivity.
  - intros page w1 t1 e w2 -> ->. cbn [app].
    rewrite <- ?app_assoc. reflexivity.
  - intros page w1 t1 response w2 -> -> Hst. apply Z.eqb_neq in Hst.
    rewrite Hst. cbn [negb app]. rewrite <- ?app_assoc. reflexivity.
Qed.

Lemma find_company_logos_failures_witness :
  find_company_logos ascii_runtime Faulty.offline (lit "Acme") 0
  = (Val [], 1,
     EvPrint (MsgSearching (lit "Acme"))
     :: [EvWikiExists (lit "Acme")]
     ++ [EvPrint (MsgFindError (lit "Acme") (lit "ConnectionError"))]).
Proof.
  apply (proj1 (find_company_logos_failures ascii_runtime Faulty.offline
                  (lit "Acme") 0)).
  reflexivity.
Defined.

(** ** What a whole run asks of the world *)

Lemma path_join_below (root r : path) (name : str) :
  exists rest, path_join (root ++ r) name = root ++ rest.
Proof.
  unfold path_join. destruct name as [|c name].
  - now exists r.
  - exists (r ++ [c :: name]). now rewrite app_assoc.
Qed.

Lemma permits_lookup_of (root : path) (P : Event -> Prop) :
  permits root P -> permits_lookup P.
Proof. now intros [H _]. Qed.

Section WholeRun.

Variable rt : PyRuntime.
Variable World : Type.
Variable env : Env World.
Variable P : Event -> Prop.

Lemma download_logo_to_folder_run (root r : path) (url : option str)
  (filename : str) :
  permits root P ->
  spec P any_value (download_logo_to_folder env url filename (root ++ r)).
Proof.
  intros ((Hprint & _) & _ & Hdl & _ & Hwrite).
  unfold download_logo_to_folder. apply spec_try.
  - apply spec_bind with (Q1 := any_value).
    + destruct url as [u|]; [|apply spec_raise].
      unfold requests_get. apply spec_ask; [apply Hdl | easy].
    + intros response _. apply spec_bind with (Q1 := any_value).
      * unfold raise_for_status. destruct (_ && _)%bool;
          [apply spec_raise | now apply spec_ret].
      * intros _ _. cbv zeta. destruct (negb _).
        -- apply spec_bind with (Q1 := any_value); [now apply spec_print|].
           intros _ _. now apply spec_ret.
        -- destruct (path_join_below root r filename) as [rest ->].
           apply spec_bind with (Q1 := any_value).
           ++ apply spec_ask; [apply Hwrite | easy].
           ++ intros file_size _.
              apply spec_bind with (Q1 := any_value);
                [now apply spec_print|].
              intros _ _. now apply spec_ret.
  - intros e. apply spec_bind with (Q1 := any_value);
      [now apply spec_print|].
    intros _ _. now apply spec_ret.
Qed.

Lemma counted_refl (self : LogoFetcher) : counted self self 0.
Proof. unfold counted. repeat split; lia. Qed.

Lemma counted_step (self self1 self' : LogoFetcher) (n : Z) :
  counted self self1 1 -> counted self1 self' n -> counted self self' (1 + n).
Proof.
  unfold counted. intros (-> & -> & -> & H1) (-> & -> & -> & H2).
  repeat split; lia.
Qed.

Lemma download_logos_run (root r : path) (self : LogoFetcher)
  (total i : nat) (logos : list LogoCandidate) :
  permits root P ->
  spec P (fun self' => counted self self' (Z.of_nat (List.length logos)))
       (download_logos env self (root ++ r) total i logos).
Proof.
  intros HP. pose proof HP as ((Hprint & _) & Hsleep & _).
  revert self i; induction logos as [|logo_info rest IH]; intros self i;
    cbn [download_logos].
  - apply spec_ret. apply counted_refl.
  - apply spec_bind with (Q1 := fun self1 => counted self self1 1).
    + apply spec_try.
      * cbv zeta.
        apply spec_bind with (Q1 := any_value); [now apply spec_print|].
        intros _ _.
        apply spec_bind with (Q1 := any_value); [now apply spec_print|].
        intros _ _.
        apply spec_bind with (Q1 := any_value); [now apply spec_print|].
        intros _ _.
        apply spec_bind with (Q1 := any_value); [now apply spec_print|].
        intros _ _.
        apply spec_bind with (Q1 := any_value);
          [now apply download_logo_to_folder_run|].
        intros ok _.
        apply spec_bind with (Q1 := any_value); [now apply spec_sleep|].
        intros _ _. apply spec_ret.
        destruct ok; unfold counted; simpl; repeat split; lia.
      * intros e.
        apply spec_bind with (Q1 := any_value); [now apply spec_print|].
        intros _ _. apply spec_ret. unfold counted. repeat split; lia.
    + intros self1 H1. eapply spec_weaken; [apply IH|].
      intros self' H2. cbn [List.length].
      replace (Z.of_nat (S (List.length rest)))
        with (1 + Z.of_nat (List.length rest))%Z by lia.
      now apply counted_step with self1.
Qed.

Lemma process_company_run (self : LogoFetcher) (company_name : str) :
  permits (logo_dir self) P ->
  spec P (fun self' => exists found, (0 <= found)%Z /\ accounted self self' found)
       (process_company rt env self company_name).
Proof.
  intros HP. pose proof HP as ((Hprint & _) & _ & _ & Hmkdir & _).
  unfold process_company. cbv zeta.
  apply spec_bind with (Q1 := any_value); [now apply spec_print|].
  intros _ _.
  apply spec_bind with (Q1 := any_value); [now apply spec_print|].
  intros _ _.
  apply spec_bind with (Q1 := any_value); [now apply spec_print|].
  intros _ _.
  apply spec_bind with (Q1 := any_value).
  { apply find_company_logos_run. now apply permits_lookup_of with (logo_dir self). }
  intros logos _. destruct logos as [|logo rest].
  - apply spec_bind with (Q1 := any_value); [now apply spec_print|].
    intros _ _. apply spec_ret. exists 0%Z.
    unfold accounted. simpl. repeat split; lia.
  - set (logos := logo :: rest).
    apply spec_bind with (Q1 := any_value); [now apply spec_print|].
    intros _ _. cbn [logo_dir add_found bump_processed].
    destruct (path_join_below (logo_dir self) []
                (sanitize_filename rt company_name)) as [rest' E].
    rewrite app_nil_r in E. rewrite E.
    apply spec_bind with (Q1 := any_value).
    { apply spec_ask; [apply Hmkdir | easy]. }
    intros _ _.
    apply spec_bind with (Q1 := any_value); [now apply spec_print|].
    intros _ _. eapply spec_weaken; [now apply download_logos_run|].
    intros self' (Hd & Hc & Hf & Hdl). exists (Z.of_nat (List.length logos)).
    split; [lia|]. unfold accounted. simpl in *. repeat split; auto; lia.
Qed.

Lemma tallied_refl (self : LogoFetcher) : tallied self self 0.
Proof. unfold tallied. repeat split; lia. Qed.

Lemma tallied_step (self self1 self' : LogoFetcher) (found n : Z) :
  (0 <= found)%Z -> accounted self self1 found -> tallied self1 self' n ->
  tallied self self' (1 + n).
Proof.
  unfold accounted, tallied.
  intros Hf (-> & -> & -> & H1) (-> & -> & H2 & H3 & H4).
  repeat split; lia.
Qed.

Lemma process_all_run (self : LogoFetcher) (companies : list str) :
  permits (logo_dir self) P ->
  spec P (fun self' => tallied self self' (Z.of_nat (List.length companies)))
       (process_all rt env self companies).
Proof.
  revert self; induction companies as [|company rest IH]; intros self HP;
    cbn [process_all].
  - apply spec_ret. apply tallied_refl.
  - pose proof HP as (_ & Hsleep & _).
    eapply spec_bind; [now apply process_company_run|].
    intros self1 (found & Hfound & Hacc). cbv beta.
    apply spec_bind with (Q1 := any_value); [now apply spec_sleep|].
    intros _ _. eapply spec_weaken.
    + apply IH. destruct Hacc as (-> & _). exact HP.
    + intros self' Ht. cbn [List.length].
      replace (Z.of_nat (S (List.length rest)))
        with (1 + Z.of_nat (List.length rest))%Z by lia.
      now apply tallied_step with self1 found.
Qed.

Lemma print_summary_run (self : LogoFetcher) :
  permits (logo_dir self) P -> spec P any_value (print_summary (World := World) self).
Proof.
  intros ((Hprint & _) & _). unfold print_summary.
  repeat (apply spec_bind with (Q1 := any_value);
          [now apply spec_print | intros _ _]).
  apply spec_bind with (Q1 := any_value).
  - destruct (_ <? _)%Z; [now apply spec_print | now apply spec_ret].
  - intros _ _. now apply spec_print.
Qed.

Lemma run_run (self : LogoFetcher) (companies : list str) :
  permits (logo_dir self) P ->
  spec P (fun self' => tallied self self' (Z.of_nat (List.length companies)))
       (run rt env self companies).
Proof.
  intros HP. pose proof HP as ((Hprint & _) & _). unfold run.
  repeat (apply spec_bind with (Q1 := any_value);
          [now apply spec_print | intros _ _]).
  eapply spec_bind; [now apply process_all_run|].
  intros self1 Ht. cbv beta.
  apply spec_bind with (Q1 := any_value).
  - apply print_summary_run. destruct Ht as (-> & _). exact HP.
  - intros _ _. now apply spec_ret.
Qed.

Lemma main_run (argv : list str) :
  permits [lit "company_logos"] P -> spec P any_value (main rt env argv).
Proof.
  intros HP. pose proof HP as ((Hprint & _) & _ & _ & Hmkdir & _).
  unfold main. destruct (_ <? _)%nat.
  - apply spec_bind with (Q1 := any_value); [now apply spec_print|].
    intros _ _. now apply spec_ret.
  - cbv zeta.
    apply spec_bind
      with (Q1 := fun fetcher => logo_dir fetcher = [lit "company_logos"]).
    + unfold new_LogoFetcher. cbv zeta.
      apply spec_bind with (Q1 := any_value).
      * apply spec_ask; [|easy].
        specialize (Hmkdir []). now rewrite app_nil_r in Hmkdir.
      * intros _ _.
        apply spec_bind with (Q1 := any_value); [now apply spec_print|].
        intros _ _. now apply spec_ret.
    + intros fetcher Hdir.
      apply spec_bind with (Q1 := any_value).
      * eapply spec_weaken; [apply run_run; now rewrite Hdir | easy].
      * intros _ _. now apply spec_ret.
Qed.

End WholeRun.

Lemma identified_permitted (root : path) : permits root identified.
Proof.
  unfold permits, permits_lookup, identified. simpl.
  repeat split; auto.
Qed.

Lemma below_permitted (root : path) : permits root (below root).
Proof.
  unfold permits, permits_lookup, below.
  repeat split; intros; eauto.
Qed.

Lemma any_event_permitted (root : path) : permits root any_event.
Proof. unfold permits, permits_lookup, any_event. repeat split. Qed.

(** Every [requests.get] of a run, whatever the arguments and whatever the
    world answers, carries the script's User-Agent and a timeout of 15 or
    30 seconds. *)
Theorem every_request_identified (rt : PyRuntime) World (env : Env World)
  (argv : list str) (w : World) :
  Forall identified (snd (main rt env argv w))
  /\ (forall rq,
        In (EvHttpGet rq) (snd (main rt env argv w)) ->
        rq_user_agent rq = lit "VoteWithYourWallet/1.0 (contact@example.com)"
        /\ (rq_timeout rq = 15%Z \/ rq_timeout rq = 30%Z)).
Proof.
  destruct (main_run rt env argv (identified_permitted [lit "company_logos"]) w)
    as [Ht _].
  split; [exact Ht|]. intros rq Hin.
  rewrite Forall_forall in Ht. exact (Ht _ Hin).
Qed.

(** When [process_company] returns, the fetcher's directory is the same,
    one more company is counted as processed, and the logos counted as
    downloaded grew by no more than the logos counted as found. *)
Theorem process_company_accounting (rt : PyRuntime) World (env : Env World)
  (self self' : LogoFetcher) (company_name : str) (w w' : World)
  (t : list Event) :
  process_company rt env self company_name w = (Val self', w', t) ->
  exists found, (0 <= found)%Z /\ accounted self self' found.
Proof.
  intros H.
  destruct (process_company_run rt env self company_name
              (any_event_permitted (logo_dir self)) w) as [_ Hq].
  apply Hq. now rewrite H.
Qed.

Lemma process_company_accounting_witness :
  exists found,
    (0 <= found)%Z
    /\ accounted (fetcher_with 0 0 0) (fetcher_with 1 2 2) found.
Proof.
  apply (@process_company_accounting ascii_runtime nat (Demo.env Demo.infos)
           (fetcher_with 0 0 0) (fetcher_with 1 2 2) (lit "Acme")
           0 8
           (snd (process_company ascii_runtime (Demo.env Demo.infos)
                   (fetcher_with 0 0 0) (lit "Acme") 0))).
  vm_compute. reflexivity.
Defined.



(** ** download_logo_to_folder *)

(** [download_logo_to_folder] never raises.  It answers [True] only after
    it has written the reply to [folder_path / filename]: then the
    candidate had a URL, the reply the world gave to the request for that
    URL had a status outside 400..599 and a content type containing
    "image", and the chunks of that reply are what was written.  It makes at
    most one request and writes no other file. *)
Theorem download_logo_to_folder_outcome World (env : Env World)
  (url : option str) (filename : str) (folder_path : path) (w : World) :
  exists ok w' t,
    download_logo_to_folder env url filename folder_path w = (Val ok, w', t)
    /\ (ok = true ->
        exists u response w1 file_size,
          url = Some u
          /\ http_get env (download_request u) w = (Val response, w1)
          /\ ~ (400 <= status_code response < 600)%Z
          /\ contains (lit "image") (get_or (content_type response) (lit "")) = true
          /\ fs_write env (path_join folder_path filename) (chunks response) w1
             = (Val file_size, w')
          /\ t = [EvHttpGet (download_request u);
                  EvWriteFile (path_join folder_path filename) (chunks response);
                  EvPrint (MsgDownloaded (path_name folder_path) filename
                                         file_size)])
    /\ filter is_network t
       = match url with
         | Some u => [EvHttpGet (download_request u)]
         | None => []
         end
    /\ (forall ev, In ev (filter is_fs_change t) ->
          exists u response w1,
            url = Some u
            /\ http_get env (download_request u) w = (Val response, w1)
            /\ ~ (400 <= status_code response < 600)%Z
            /\ contains (lit "image")
                 (get_or (content_type response) (lit "")) = true
            /\ ev = EvWriteFile (path_join folder_path filename)
                                (chunks response)).
Proof.
  unfold download_logo_to_folder, try_except, bind, requests_get, ask,
    raise_for_status, raise, ret, print.
  destruct url as [u|].
  - destruct (http_get env (download_request u) w) as [[response|e] w1] eqn:Hget.
    + destruct ((400 <=? status_code response)%Z
                && (status_code response <? 600)%Z) eqn:Hst.
      * do 3 eexists. split; [reflexivity|]. simpl.
        split; [discriminate|]. split; [reflexivity | intros ev []].
      * assert (Hstatus : ~ (400 <= status_code response < 600)%Z).
        { apply andb_false_iff in Hst as [H|H];
            [apply Z.leb_gt in H | apply Z.ltb_ge in H]; lia. }
        destruct (contains (lit "image")
                    (get_or (content_type response) (lit ""))) eqn:Hct; cbn [negb].
        -- destruct (fs_write env (path_join folder_path filename)
                       (chunks response) w1) as [[file_size|e] w2] eqn:Hw.
           ++ do 3 eexists. split; [reflexivity|]. simpl.
              split; [|split; [reflexivity|]].
              ** intros _. exists u, response, w1, file_size.
                 repeat split; auto.
              ** intros ev [<-|[]]. exists u, response, w1.
                 repeat split; auto.
           ++ do 3 eexists. split; [reflexivity|]. simpl.
              split; [discriminate|]. split; [reflexivity|].
              intros ev [<-|[]]. exists u, response, w1. repeat split; auto.
        -- do 3 eexists. split; [reflexivity|]. simpl.
           split; [discriminate|]. split; [reflexivity | intros ev []].
    + do 3 eexists. split; [reflexivity|]. simpl.
      split; [discriminate|]. split; [reflexivity | intros ev []].
  - do 3 eexists. split; [reflexivity|]. simpl.
    split; [discriminate|]. split; [reflexivity | intros ev []].
Qed.

(** What [download_logo_to_folder] refuses, without touching the disk: a
    candidate without URL (no request is made), a request that raises, a
    status of 400..599, and a content type without "image".  A reply of any
    other status whose content type contains "image" is written and counts
    as downloaded. *)
Theorem download_logo_to_folder_refusals World (env : Env World)
  (filename : str) (folder_path : path) (w : World) :
  (exists e,
      download_logo_to_folder env None filename folder_path w
      = (Val false, w, [EvPrint (MsgDownloadFailed filename e)]))
  /\ (forall u e w1,
        http_get env (download_request u) w = (Exn e, w1) ->
        download_logo_to_folder env (Some u) filename folder_path w
        = (Val false, w1,
           [EvHttpGet (download_request u);
            EvPrint (MsgDownloadFailed filename e)]))
  /\ (forall u response w1,
        http_get env (download_request u) w = (Val response, w1) ->
        (400 <= status_code response < 600)%Z ->
        exists e,
          download_logo_to_folder env (Some u) filename folder_path w
          = (Val false, w1,
             [EvHttpGet (download_request u);
              EvPrint (MsgDownloadFailed filename e)]))
  /\ (forall u response w1,
        http_get env (download_request u) w = (Val response, w1) ->
        ~ (400 <= status_code response < 600)%Z ->
        contains (lit "image") (get_or (content_type response) (lit "")) = false ->
        download_logo_to_folder env (Some u) filename folder_path w
        = (Val false, w1,
           [EvHttpGet (download_request u);
            EvPrint (MsgNotImage (get_or (content_type response) (lit "")))]))
  /\ (forall u response w1 file_size w2,
        http_get env (download_request u) w = (Val response, w1) ->
        ~ (400 <= status_code response < 600)%Z ->
        contains (lit "image") (get_or (content_type response) (lit "")) = true ->
        fs_write env (path_join folder_path filename) (chunks response) w1
        = (Val file_size, w2) ->
        download_logo_to_folder env (Some u) filename folder_path w
        = (Val true, w2,
           [EvHttpGet (download_request u);
            EvWriteFile (path_join folder_path filename) (chunks response);
            EvPrint (MsgDownloaded (path_name folder_path) filename file_size)])).
Proof.
  assert (Hno : forall s, ~ (400 <= s < 600)%Z ->
                          ((400 <=? s)%Z && (s <? 600)%Z) = false).
  { intros s H. apply andb_false_iff.
    destruct (Z.leb_spec 400 s); [right; apply Z.ltb_ge; lia | now left]. }
  unfold download_logo_to_folder, try_except, bind, requests_get, ask,
    raise_for_status, raise, ret, print.
  split; [eexists; reflexivity|]. repeat split.
  - intros u e w1 ->. reflexivity.
  - intros u response w1 -> [H1 H2].
    apply Z.leb_le in H1. apply Z.ltb_lt in H2. rewrite H1, H2.
    eexists. reflexivity.
  - intros u response w1 -> Hst Hct. rewrite (Hno _ Hst), Hct. reflexivity.
  - intros u response w1 file_size w2 -> Hst Hct Hw.
    rewrite (Hno _ Hst), Hct. cbn [negb]. rewrite Hw. reflexivity.
Qed.

Lemma download_logo_to_folder_refusals_witness :
  download_logo_to_folder (Faulty.answering 200 "text/html")
    (Some (lit "https://upload.wikimedia.org/acme")) (lit "logo_1.png")
    [lit "company_logos"; lit "Acme"] 0
  = (Val false, 1,
     [EvHttpGet (download_request (lit "https://upload.wikimedia.org/acme"));
      EvPrint (MsgNotImage (lit "text/html"))]).
Proof.
  destruct (download_logo_to_folder_refusals (Faulty.answering 200 "text/html")
              (lit "logo_1.png") [lit "company_logos"; lit "Acme"] 0)
    as (_ & _ & _ & H & _).
  apply (H (lit "https://upload.wikimedia.org/acme")
           {| status_code := 200; content_type := Some (lit "text/html");
              json := None; chunks := [[60; 104; 49; 62]%N] |} 1).
  - reflexivity.
  - simpl. lia.
  - reflexivity.
Defined.

(** ** process_company, run and main when something is missing *)

Lemma read_only_trace (t : list Event) :
  Forall read_only t -> filter is_fs_change t = [] /\ filter is_sleep t = [].
Proof.
  induction 1 as [|ev t [Hfs Hsl] _ [IH1 IH2]]; [now split|].
  simpl. rewrite Hfs, Hsl. now split.
Qed.

(** A company for which no logo is found gets no folder: the company is
    counted as processed, one line says so, and nothing is created, written
    or waited for. *)
Theorem process_company_without_logos (rt : PyRuntime) World (env : Env World)
  (self : LogoFetcher) (company_name : str) (w w1 : World) (t1 : list Event) :
  find_company_logos rt env company_name w = (Val [], w1, t1) ->
  process_company rt env self company_name w
  = (Val (bump_processed self), w1,
     EvPrint (MsgRule 60) :: EvPrint (MsgProcessing company_name)
     :: EvPrint (MsgRule 60) :: t1 ++ [EvPrint (MsgNoLogos company_name)])
  /\ filter is_fs_change (snd (process_company rt env self company_name w)) = []
  /\ filter is_sleep (snd (process_company rt env self company_name w)) = [].
Proof.
  intros Hfind.
  assert (E : process_company rt env self company_name w
              = (Val (bump_processed self), w1,
                 EvPrint (MsgRule 60) :: EvPrint (MsgProcessing company_name)
                 :: EvPrint (MsgRule 60)
                 :: t1 ++ [EvPrint (MsgNoLogos company_name)])).
  { unfold process_company, bind, print, ret. rewrite Hfind. reflexivity. }
  split; [exact E|]. rewrite E. cbn [snd filter is_fs_change is_sleep].
  destruct (find_company_logos_run rt env read_only_permitted company_name w)
    as [Ht _].
  rewrite Hfind in Ht. cbn [snd] in Ht.
  apply read_only_trace in Ht as [Hfs Hsl].
  rewrite !filter_app, Hfs, Hsl. now split.
Qed.

Lemma process_company_without_logos_witness :
  filter is_fs_change
    (snd (process_company ascii_runtime Faulty.offline (fetcher_with 0 0 0)
            (lit "Acme") 0)) = [].
Proof.
  apply (@process_company_without_logos ascii_runtime nat Faulty.offline
           (fetcher_with 0 0 0) (lit "Acme") 0 1
           (snd (find_company_logos ascii_runtime Faulty.offline (lit "Acme") 0))).
  reflexivity.
Defined.

(** A company folder that cannot be created stops everything: the
    exception of [mkdir] leaves [process_company], the companies after it
    are not processed, and [run] ends without printing the summary. *)
Theorem process_company_mkdir_failure (rt : PyRuntime) World (env : Env World)
  (self : LogoFetcher) (company_name : str) (others : list str)
  (w w1 w2 : World) (logo : LogoCandidate) (logos : list LogoCandidate)
  (t1 : list Event) (e : str) :
  find_company_logos rt env company_name w = (Val (logo :: logos), w1, t1) ->
  fs_mkdir env (path_join (logo_dir self) (sanitize_filename rt company_name)) w1
  = (Exn e, w2) ->
  let t :=
    EvPrint (MsgRule 60) :: EvPrint (MsgProcessing company_name)
    :: EvPrint (MsgRule 60)
    :: t1 ++ [EvPrint (MsgFoundLogos (S (List.length logos)) company_name);
              EvMkdir (path_join (logo_dir self)
                                 (sanitize_filename rt company_name))] in
  process_company rt env self company_name w = (Exn e, w2, t)
  /\ process_all rt env self (company_name :: others) w = (Exn e, w2, t)
  /\ run rt env self (company_name :: others) w
     = (Exn e, w2,
        EvPrint MsgTitle :: EvPrint (MsgRule 50) :: EvPrint MsgTargetFormat
        :: EvPrint (MsgCompanies (S (List.length others))) :: t).
Proof.
  intros Hfind Hmk t.
  assert (E : process_company rt env self company_name w = (Exn e, w2, t)).
  { unfold process_company, bind, print, ret, ask. rewrite Hfind.
    cbn [logo_dir add_found bump_processed]. rewrite Hmk.
    subst t. cbn [app List.length]. rewrite <- ?app_assoc. reflexivity. }
  assert (E2 : process_all rt env self (company_name :: others) w
               = (Exn e, w2, t)).
  { cbn [process_all]. unfold bind. now rewrite E. }
  split; [exact E | split; [exact E2|]].
  unfold run, bind, print. now rewrite E2.
Qed.

Lemma process_company_mkdir_failure_witness :
  process_all ascii_runtime Faulty.locked_disk (fetcher_with 0 0 0)
    [lit "Acme"; lit "Globex"] 0
  = (Exn (lit "PermissionError"), 6,
     snd (process_company ascii_runtime Faulty.locked_disk (fetcher_with 0 0 0)
            (lit "Acme") 0)).
Proof.
  destruct (@process_company_mkdir_failure ascii_runtime nat Faulty.locked_disk
              (fetcher_with 0 0 0) (lit "Acme") [lit "Globex"] 0 6 6
              Demo.acme_logo [Demo.acme_wordmark "image/svg+xml" 200 50]
              (snd (find_company_logos ascii_runtime Faulty.locked_disk
                      (lit "Acme") 0))
              (lit "PermissionError") eq_refl eq_refl) as (_ & H & _).
  exact H.
Defined.

(** With a company to process, the first thing [main] asks of the world is
    the logo directory; when it cannot be created the exception leaves
    [main] before any request is made. *)
Theorem main_logo_dir_failure (rt : PyRuntime) World (env : Env World)
  (argv : list str) (w w1 : World) (e : str) :
  (2 <= List.length argv)%nat ->
  fs_mkdir env [lit "company_logos"] w = (Exn e, w1) ->
  main rt env argv w = (Exn e, w1, [EvMkdir [lit "company_logos"]]).
Proof.
  intros Hlen Hmk. unfold main.
  destruct (Nat.ltb_spec (List.length argv) 2) as [Hlt|_]; [lia|].
  unfold new_LogoFetcher, bind, ask. cbv beta zeta. now rewrite Hmk.
Qed.

Lemma main_logo_dir_failure_witness :
  main ascii_runtime Faulty.locked_disk [lit "fetch-logos-only.py"; lit "Acme"] 0
  = (Exn (lit "PermissionError"), 0, [EvMkdir [lit "company_logos"]]).
Proof.
  apply (@main_logo_dir_failure ascii_runtime nat Faulty.locked_disk
           [lit "fetch-logos-only.py"; lit "Acme"] 0 0 (lit "PermissionError")).
  - simpl. lia.
  - reflexivity.
Defined.

(** ** The download loop *)

Lemma lit_inj (s1 s2 : string) : lit s1 = lit s2 -> s1 = s2.
Proof.
  unfold lit. intros H.
  rewrite <- (string_of_list_ascii_of_string s1),
          <- (string_of_list_ascii_of_string s2).
  f_equal.
  assert (Hmap : forall l, map ascii_of_N (map N_of_ascii l) = l).
  { induction l as [|a l IH]; simpl; [reflexivity|].
    now rewrite ascii_N_embedding, IH. }
  rewrite <- (Hmap (list_ascii_of_string s1)),
          <- (Hmap (list_ascii_of_string s2)).
  now rewrite H.
Qed.

Lemma str_of_nat_inj (a b : nat) : str_of_nat a = str_of_nat b -> a = b.
Proof.
  unfold str_of_nat. intros H. apply lit_inj in H.
  apply (f_equal NilEmpty.uint_of_string) in H.
  rewrite !NilEmpty.usu in H. injection H as H.
  apply (f_equal Nat.of_uint) in H.
  now rewrite !DecimalNat.Unsigned.of_to in H.
Qed.

Lemma app_same_length {A} (a b x y : list A) :
  List.length a = List.length b -> a ++ x = b ++ y -> a = b /\ x = y.
Proof.
  revert b; induction a as [|c a IH]; intros [|d b] Hlen H;
    try discriminate.
  - now split.
  - simpl in *. injection H as -> H. injection Hlen as Hlen.
    destruct (IH b Hlen H) as [-> ->]. now split.
Qed.

Lemma logo_filename_inj (i j : nat) (mime1 mime2 : str) :
  logo_filename i mime1 = logo_filename j mime2 -> i = j.
Proof.
  unfold logo_filename. intros H. apply app_inv_head in H.
  assert (Hlen : List.length (str_of_nat (i + 1))
                 = List.length (str_of_nat (j + 1))).
  { apply (f_equal (@List.length char)) in H.
    rewrite !length_app in H.
    destruct (contains (lit "png") mime1), (contains (lit "png") mime2);
      simpl in H; lia. }
  destruct (app_same_length _ _ _ _ Hlen H) as [E _].
  apply str_of_nat_inj in E. lia.
Qed.

Lemma path_join_inj (dir : path) (c1 c2 : char) (n1 n2 : str) :
  path_join dir (c1 :: n1) = path_join dir (c2 :: n2) -> c1 :: n1 = c2 :: n2.
Proof.
  unfold path_join. intros H. apply app_inv_head in H. congruence.
Qed.

Lemma logo_targets_index (company_dir : path) (i : nat)
  (logos : list LogoCandidate) (p : path) :
  In p (logo_targets company_dir i logos) ->
  exists k mime, (i <= k)%nat
                 /\ p = path_join company_dir (logo_filename k mime).
Proof.
  revert i; induction logos as [|logo rest IH]; intros i; simpl; [easy|].
  intros [<-|Hin].
  - now exists i, (lc_mime logo).
  - destruct (IH (S i) Hin) as (k & mime & Hk & ->).
    exists k, mime. split; [lia | reflexivity].
Qed.

Lemma logo_targets_NoDup (company_dir : path) (i : nat)
  (logos : list LogoCandidate) :
  NoDup (logo_targets company_dir i logos).
Proof.
  revert i; induction logos as [|logo rest IH]; intros i; simpl;
    constructor; [|apply IH].
  intros Hin. apply logo_targets_index in Hin as (k & mime & Hk & E).
  apply path_join_inj in E. apply logo_filename_inj in E. lia.
Qed.

Section DownloadLoop.

Variable World : Type.
Variable env : Env World.

Lemma spec_events {A} (P P' : Event -> Prop) (Q : A -> Prop) (m : M World A) :
  (forall ev, P ev -> P' ev) -> spec P Q m -> spec P' Q m.
Proof.
  intros Himp Hm w. destruct (Hm w) as [Ht Hq].
  split; [eapply Forall_impl; eauto | exact Hq].
Qed.

Lemma download_logo_to_folder_events (P : Event -> Prop) (url : option str)
  (filename : str) (folder_path : path) :
  (forall m, P (EvPrint m)) ->
  (forall u, P (EvHttpGet (download_request u))) ->
  (forall data, P (EvWriteFile (path_join folder_path filename) data)) ->
  spec P any_value (download_logo_to_folder env url filename folder_path).
Proof.
  intros Hprint Hdl Hwrite.
  unfold download_logo_to_folder. apply spec_try.
  - apply spec_bind with (Q1 := any_value).
    + destruct url as [u|]; [|apply spec_raise].
      unfold requests_get. apply spec_ask; [apply Hdl | easy].
    + intros response _. apply spec_bind with (Q1 := any_value).
      * unfold raise_for_status. destruct (_ && _)%bool;
          [apply spec_raise | now apply spec_ret].
      * intros _ _. cbv zeta. destruct (negb _).
        -- apply spec_bind with (Q1 := any_value); [now apply spec_print|].
           intros _ _. now apply spec_ret.
        -- apply spec_bind with (Q1 := any_value).
           ++ apply spec_ask; [apply Hwrite | easy].
           ++ intros file_size _.
              apply spec_bind with (Q1 := any_value);
                [now apply spec_print|].
              intros _ _. now apply spec_ret.
  - intros e. apply spec_bind with (Q1 := any_value);
      [now apply spec_print|].
    intros _ _. now apply spec_ret.
Qed.

Lemma download_logo_to_folder_safe (url : option str) (filename : str)
  (folder_path : path) :
  safe (download_logo_to_folder env url filename folder_path).
Proof.
  unfold download_logo_to_folder. apply safe_try. intros e.
  apply safe_bind; [apply safe_print | intros; apply safe_ret].
Qed.

Lemma download_logos_writes (self : LogoFetcher) (company_dir : path)
  (total i : nat) (logos : list LogoCandidate) :
  spec (writes_to (logo_targets company_dir i logos)) any_value
       (download_logos env self company_dir total i logos).
Proof.
  revert self i; induction logos as [|logo_info rest IH]; intros self i;
    cbn [download_logos logo_targets].
  - now apply spec_ret.
  - apply spec_bind with (Q1 := any_value).
    + apply spec_try.
      * cbv zeta.
        repeat (apply spec_bind with (Q1 := any_value);
                [now apply spec_print | intros _ _]).
        apply spec_bind with (Q1 := any_value).
        { apply download_logo_to_folder_events; try easy.
          intros data. simpl. now left. }
        intros ok _.
        apply spec_bind with (Q1 := any_value); [now apply spec_sleep|].
        intros _ _. now apply spec_ret.
      * intros e.
        apply spec_bind with (Q1 := any_value); [now apply spec_print|].
        intros _ _. now apply spec_ret.
    + intros self1 _. eapply spec_events; [|apply IH].
      intros [m|v|rq|p|p data|s]; simpl; auto.
Qed.

Lemma download_logos_step (self : LogoFetcher) (company_dir : path)
  (total i : nat) (logo_info : LogoCandidate) (rest : list LogoCandidate)
  (w : World) :
  exists self1 w1 tb,
    filter is_sleep tb = [EvSleep 2]
    /\ forall r w2 t2,
        download_logos env self1 company_dir total (S i) rest w1 = (r, w2, t2) ->
        download_logos env self company_dir total i (logo_info :: rest) w
        = (r, w2, tb ++ t2).
Proof.
  set (filename := lit "logo_" ++ str_of_nat (i + 1) ++ lit "."
                   ++ (if contains (lit "png") (lc_mime logo_info)
                       then lit "png" else lit "svg")).
  destruct (download_logo_to_folder_safe (lc_url logo_info) filename
              company_dir w) as [ok Hok].
  destruct (download_logo_to_folder_events no_pause (lc_url logo_info)
              filename company_dir
              (fun _ => eq_refl) (fun _ => eq_refl) (fun _ => eq_refl) w)
    as [Htd _].
  destruct (download_logo_to_folder env (lc_url logo_info) filename
              company_dir w) as [[rd w1] td] eqn:Hd.
  simpl in Hok, Htd. subst rd.
  exists (if ok then bump_downloaded self else self), w1.
  eexists. split.
  2:{ intros r w2 t2 Hrest. cbn [download_logos]. cbv zeta.
      fold filename. eapply bind_val; [|exact Hrest].
      apply try_val.
      eapply bind_val; [reflexivity|].
      eapply bind_val; [reflexivity|].
      eapply bind_val; [reflexivity|].
      eapply bind_val; [reflexivity|].
      eapply bind_val; [exact Hd|].
      eapply bind_val; [reflexivity|]. reflexivity. }
  cbn [app filter is_sleep]. rewrite filter_app.
  assert (Hnone : filter is_sleep td = []).
  { clear Hd. induction Htd as [|ev td Hev _ IHt]; [reflexivity|].
    simpl. unfold no_pause in Hev. now rewrite Hev. }
  rewrite Hnone. reflexivity.
Qed.

Lemma download_logos_pauses_run (self : LogoFetcher) (company_dir : path)
  (total i : nat) (logos : list LogoCandidate) (w : World) :
  (exists self', fst (fst (download_logos env self company_dir total i logos w))
                 = Val self')
  /\ filter is_sleep (snd (download_logos env self company_dir total i logos w))
     = repeat (EvSleep 2) (List.length logos).
Proof.
  revert self i w; induction logos as [|logo_info rest IH]; intros self i w.
  - simpl. split; [now exists self | reflexivity].
  - destruct (download_logos_step self company_dir total i logo_info rest w)
      as (self1 & w1 & tb & Htb & Hstep).
    destruct (IH self1 (S i) w1) as [[self' Hval] Hsl].
    destruct (download_logos env self1 company_dir total (S i) rest w1)
      as [[r w2] t2] eqn:Hrest.
    rewrite (Hstep r w2 t2 eq_refl). simpl in Hval, Hsl |- *.
    split; [now exists self'|].
    now rewrite filter_app, Htb, Hsl.
Qed.

End DownloadLoop.

Lemma subseq_In {A} (l1 l2 : list A) (x : A) :
  subseq l1 l2 -> In x l1 -> In x l2.
Proof.
  induction 1 as [|y l1 l2 _ IH|y l1 l2 _ IH]; simpl; [easy | auto |].
  intros [->|H]; auto.
Qed.

Lemma subseq_NoDup {A} (l1 l2 : list A) :
  subseq l1 l2 -> NoDup l2 -> NoDup l1.
Proof.
  induction 1 as [|y l1 l2 Hs IH|y l1 l2 Hs IH]; intros Hnd.
  - constructor.
  - apply IH. now apply NoDup_cons_iff in Hnd.
  - apply NoDup_cons_iff in Hnd as [Hy Hnd]. constructor; [|now apply IH].
    intros Hin. apply Hy. now apply subseq_In with l1.
Qed.

Lemma written_app (t1 t2 : list Event) :
  written (t1 ++ t2) = written t1 ++ written t2.
Proof. apply flat_map_app. Qed.

Lemma download_logo_to_folder_written World (env : Env World)
  (url : option str) (filename : str) (folder_path : path) (w : World) :
  written (snd (download_logo_to_folder env url filename folder_path w)) = []
  \/ written (snd (download_logo_to_folder env url filename folder_path w))
     = [path_join folder_path filename].
Proof.
  unfold download_logo_to_folder, try_except, bind, requests_get, ask,
    raise_for_status, raise, ret, print.
  destruct url as [u|]; [|now left].
  destruct (http_get env (download_request u) w) as [[response|e] w1];
    [|now left].
  destruct ((400 <=? status_code response)%Z
            && (status_code response <? 600)%Z); [now left|].
  destruct (contains (lit "image") (get_or (content_type response) (lit "")));
    cbn [negb]; [|now left].
  destruct (fs_write env (path_join folder_path filename) (chunks response) w1)
    as [[file_size|e] w2]; now right.
Qed.

(** One turn of the loop of lines 248-267, spelled out: the four lines,
    the download of candidate [i] to [logo_<i+1>.<ext>], the pause, and the
    turns of the candidates after it from the world the download left. *)
Lemma download_logos_cons World (env : Env World) (self : LogoFetcher)
  (company_dir : path) (total i : nat) (logo_info : LogoCandidate)
  (rest : list LogoCandidate) (w : World) :
  download_logos env self company_dir total i (logo_info :: rest) w =
  let header :=
    [ EvPrint (MsgDownloading (i + 1) total);
      EvPrint (MsgOriginal (lc_filename logo_info));
      EvPrint (MsgSize (lc_width logo_info) (lc_height logo_info));
      EvPrint (MsgFormat (lc_mime logo_info)) ] in
  match download_logo_to_folder env (lc_url logo_info)
          (logo_filename i (lc_mime logo_info)) company_dir w with
  | (Val ok, w1, td) =>
      match download_logos env (if ok then bump_downloaded self else self)
              company_dir total (S i) rest w1 with
      | (r, w2, t2) => (r, w2, header ++ td ++ EvSleep 2 :: t2)
      end
  | (Exn e, w1, td) =>
      match download_logos env self company_dir total (S i) rest w1 with
      | (r, w2, t2) =>
          (r, w2, header ++ td ++ EvPrint (MsgDownloadError (i + 1) e) :: t2)
      end
  end.
Proof.
  cbn [download_logos]. unfold try_except, bind, print, sleep, ret.
  unfold logo_filename. cbv beta zeta.
  destruct (download_logo_to_folder env (lc_url logo_info) _ company_dir w)
    as [[[ok|e] w1] td].
  - destruct (download_logos env (if ok then bump_downloaded self else self)
                company_dir total (S i) rest w1) as [[r w2] t2].
    cbn [app]. rewrite <- ?app_assoc. cbn [app]. reflexivity.
  - destruct (download_logos env self company_dir total (S i) rest w1)
      as [[r w2] t2].
    cbn [app]. rewrite <- ?app_assoc. cbn [app]. reflexivity.
Qed.

Lemma download_logos_written_cons World (env : Env World) (self : LogoFetcher)
  (company_dir : path) (total i : nat) (logo_info : LogoCandidate)
  (rest : list LogoCandidate) (w : World) :
  exists self1,
    written (snd (download_logos env self company_dir total i
                    (logo_info :: rest) w))
    = written (snd (download_logo_to_folder env (lc_url logo_info)
                      (logo_filename i (lc_mime logo_info)) company_dir w))
      ++ written (snd (download_logos env self1 company_dir total (S i) rest
                         (snd (fst (download_logo_to_folder env
                                      (lc_url logo_info)
                                      (logo_filename i (lc_mime logo_info))
                                      company_dir w))))).
Proof.
  rewrite download_logos_cons. cbv zeta.
  destruct (download_logo_to_folder env (lc_url logo_info)
              (logo_filename i (lc_mime logo_info)) company_dir w)
    as [[[ok|e] w1] td]; cbn [fst snd].
  - exists (if ok then bump_downloaded self else self).
    destruct (download_logos env (if ok then bump_downloaded self else self)
                company_dir total (S i) rest w1) as [[r w2] t2].
    cbn [snd]. now rewrite !written_app.
  - exists self.
    destruct (download_logos env self company_dir total (S i) rest w1)
      as [[r w2] t2].
    cbn [snd]. now rewrite !written_app.
Qed.

Lemma download_logos_written_subseq World (env : Env World)
  (self : LogoFetcher) (company_dir : path) (total i : nat)
  (logos : list LogoCandidate) (w : World) :
  subseq (written (snd (download_logos env self company_dir total i logos w)))
         (logo_targets company_dir i logos).
Proof.
  revert self i w; induction logos as [|logo_info rest IH]; intros self i w.
  - constructor.
  - destruct (download_logos_written_cons env self company_dir total i
                logo_info rest w) as [self1 ->].
    cbn [logo_targets].
    destruct (download_logo_to_folder_written env (lc_url logo_info)
                (logo_filename i (lc_mime logo_info)) company_dir w)
      as [-> | ->]; cbn [app].
    + apply subseq_skip. apply IH.
    + apply subseq_take. apply IH.
Qed.

(** The download loop handles candidate number [i] (from 0) by one call of
    [download_logo_to_folder] for [logo_<i+1>.png] or [logo_<i+1>.svg] in
    the company folder, which writes that file or nothing, and goes on with
    the next number.  So the files written are, in order, targets of the
    candidates with some left out; no directory is created; names of
    different positions differ, and no file is written twice: within one
    company no download overwrites another. *)
Theorem download_logos_targets World (env : Env World) (self : LogoFetcher)
  (company_dir : path) (total i : nat) (logos : list LogoCandidate) :
  (forall w,
      Forall (writes_to (logo_targets company_dir i logos))
             (snd (download_logos env self company_dir total i logos w)))
  /\ NoDup (logo_targets company_dir i logos)
  /\ (forall j k mime1 mime2,
        logo_filename j mime1 = logo_filename k mime2 -> j = k)
  /\ (forall w,
        subseq (written (snd (download_logos env self company_dir total i
                                logos w)))
               (logo_targets company_dir i logos))
  /\ (forall w,
        NoDup (written (snd (download_logos env self company_dir total i
                               logos w))))
  /\ (forall logo_info rest w,
        let download :=
          download_logo_to_folder env (lc_url logo_info)
            (logo_filename i (lc_mime logo_info)) company_dir w in
        (written (snd download) = []
         \/ written (snd download)
            = [path_join company_dir (logo_filename i (lc_mime logo_info))])
        /\ exists self1,
             written (snd (download_logos env self company_dir total i
                             (logo_info :: rest) w))
             = written (snd download)
               ++ written (snd (download_logos env self1 company_dir total
                                  (S i) rest (snd (fst download))))).
Proof.
  split; [|split; [|split; [|split; [|split]]]].
  - intros w.
    now destruct (download_logos_writes env self company_dir total i logos w).
  - apply logo_targets_NoDup.
  - apply logo_filename_inj.
  - intros w. apply download_logos_written_subseq.
  - intros w. eapply subseq_NoDup.
    + apply download_logos_written_subseq.
    + apply logo_targets_NoDup.
  - intros logo_info rest w download. split.
    + apply download_logo_to_folder_written.
    + apply download_logos_written_cons.
Qed.

(** The download loop never raises, and it pauses 2 seconds once for every
    candidate, whether its download succeeded or not. *)
Theorem download_logos_pauses World (env : Env World) (self : LogoFetcher)
  (company_dir : path) (total i : nat) (logos : list LogoCandidate) (w : World) :
  (exists self', fst (fst (download_logos env self company_dir total i logos w))
                 = Val self')
  /\ filter is_sleep (snd (download_logos env self company_dir total i logos w))
     = repeat (EvSleep 2) (List.length logos).
Proof. apply download_logos_pauses_run. Qed.

(** ** An article without usable references *)

Lemma all_images_none (pages : Pages) :
  Forall (fun entry => pd_images (snd entry) = None
                       \/ pd_images (snd entry) = Some []) pages ->
  all_images pages = [].
Proof.
  induction 1 as [|entry rest Hentry _ IH]; [reflexivity|].
  unfold all_images in *. cbn [flat_map]. rewrite IH.
  now destruct Hentry as [-> | ->].
Qed.

(** When the article is found and the listing has no entry with images
    (no [pages], or entries without an [images] key or with an empty one),
    or none of the listed titles passes [is_logo_file], the result is the
    empty list and the listing request is the last request made. *)
Theorem find_company_logos_nothing_to_fetch (rt : PyRuntime) World
  (env : Env World) (company_name : str) (w w1 w2 : World) (page : WikiPage)
  (t1 : list Event) (response : Response) (pages : Pages) :
  first_existing env (search_variations company_name) w
  = (Val (Some page), w1, t1) ->
  http_get env (images_request (wp_title page)) w1 = (Val response, w2) ->
  status_code response = 200%Z ->
  json response = Some pages ->
  Forall (fun entry => pd_images (snd entry) = None
                       \/ pd_images (snd entry) = Some []) pages
  \/ Forall (fun title => is_logo_file rt title = false) (all_images pages) ->
  exists t,
    find_company_logos rt env company_name w = (Val [], w2, t)
    /\ filter is_network t = t1 ++ [EvHttpGet (images_request (wp_title page))].
Proof.
  intros Hfirst Hget Hst Hjson Hnone.
  assert (Hpass : filter (is_logo_file rt) (all_images pages) = []).
  { destruct Hnone as [H|H].
    - now rewrite (all_images_none H).
    - apply filter_nil_iff. exact H. }
  destruct (@find_company_logos_scan rt World env company_name w w1 w2 page t1
              response pages Hfirst Hget Hst Hjson) as (t & Hfind & Hnet).
  rewrite Hpass in Hfind, Hnet. exists t. split; [exact Hfind | exact Hnet].
Qed.

Lemma find_company_logos_nothing_to_fetch_witness :
  exists t,
    find_company_logos ascii_runtime Faulty.bare (lit "Acme") 0 = (Val [], 4, t)
    /\ filter is_network t
       = [ EvWikiExists (lit "Acme"); EvWikiExists (lit "Acme, Inc.");
           EvWikiExists (lit "Acme Inc.") ]
         ++ [EvHttpGet (images_request (lit "Acme Corporation"))].
Proof.
  apply (@find_company_logos_nothing_to_fetch ascii_runtime nat
           Faulty.bare (lit "Acme") 0 3 4
           {| wp_variation := lit "Acme Inc.";
              wp_title := lit "Acme Corporation" |}
           [ EvWikiExists (lit "Acme"); EvWikiExists (lit "Acme, Inc.");
             EvWikiExists (lit "Acme Inc.") ]
           {| status_code := 200;
              content_type := Some (lit "application/json");
              json := Some [(lit "7", {| pd_images := None;
                                         pd_imageinfo := None |})];
              chunks := [] |}
           [(lit "7", {| pd_images := None; pd_imageinfo := None |})]).
  - reflexivity.
  - reflexivity.
  - reflexivity.
  - reflexivity.
  - left. repeat constructor.
Defined.

(** ** Where a run writes *)

Lemma uint_digits (d : Decimal.uint) :
  Forall (fun c => (48 <= c <= 57)%N) (lit (NilEmpty.string_of_uint d)).
Proof.
  induction d; cbn [NilEmpty.string_of_uint]; try (now constructor);
    unfold lit in *; cbn [list_ascii_of_string map];
    (constructor; [vm_compute; split; discriminate | assumption]).
Qed.

Lemma str_of_nat_digits (n : nat) :
  Forall (fun c => (48 <= c <= 57)%N) (str_of_nat n).
Proof. apply uint_digits. Qed.

Lemma logo_filename_head (i : nat) (mime : str) :
  exists tail, logo_filename i mime = 108%N :: tail.
Proof. unfold logo_filename. eexists. reflexivity. Qed.

Lemma logo_filename_plain (i : nat) (mime : str) :
  plain_name (logo_filename i mime).
Proof.
  destruct (logo_filename_head i mime) as [tail Eh].
  repeat split.
  - rewrite Eh. discriminate.
  - unfold logo_filename. intros Hin.
    apply in_app_or in Hin as [Hin|Hin].
    { vm_compute in Hin. intuition discriminate. }
    apply in_app_or in Hin as [Hin|Hin].
    { pose proof (str_of_nat_digits (i + 1)) as Hd.
      rewrite Forall_forall in Hd. apply Hd in Hin.
      unfold slash in Hin. lia. }
    apply in_app_or in Hin as [Hin|Hin].
    { vm_compute in Hin. intuition discriminate. }
    destruct (contains (lit "png") mime); vm_compute in Hin;
      intuition discriminate.
  - rewrite Eh. discriminate.
  - rewrite Eh. discriminate.
Qed.

Lemma sanitize_filename_plain (rt : PyRuntime) (company_name : str) :
  ascii_sound rt ->
  sanitize_filename rt company_name = []
  \/ plain_name (sanitize_filename rt company_name).
Proof.
  intros (Hal & _).
  destruct (sanitize_filename rt company_name) as [|c0 s0] eqn:E;
    [now left | right].
  pose proof (sanitize_filename_word rt company_name) as Hw.
  rewrite E in Hw. rewrite Forall_forall in Hw.
  assert (Hno : forall c, is_ascii c = true -> ascii_isalnum c = false ->
                          c <> underscore -> ~ In c (c0 :: s0)).
  { intros c Ha Hc Hu Hin. apply Hw in Hin. unfold re_word in Hin.
    rewrite Hal, Hc in Hin by exact Ha. simpl in Hin.
    apply char_eqb_eq in Hin. contradiction. }
  repeat split.
  - discriminate.
  - apply Hno; [reflexivity | reflexivity | discriminate].
  - intros Heq. apply (Hno period); [reflexivity | reflexivity | discriminate|].
    rewrite Heq. now left.
  - intros Heq. apply (Hno period); [reflexivity | reflexivity | discriminate|].
    rewrite Heq. now left.
Qed.

Lemma path_join_plain (p : path) (name : str) :
  plain_name name -> path_join p name = p ++ [name].
Proof. intros (Hne & _). unfold path_join. now destruct name. Qed.

Section Containment.

Variable rt : PyRuntime.
Variable World : Type.
Variable env : Env World.
Variable root : path.
Hypothesis Hrt : ascii_sound rt.

Lemma contained_lookup : permits_lookup (contained root).
Proof. repeat split. Qed.

Lemma spec_result {A} (P P' : Event -> Prop) (Q Q' : A -> Prop)
  (m : M World A) :
  spec P Q m -> spec P' Q' m -> spec P' Q m.
Proof.
  intros H1 H2 w. destruct (H1 w) as [_ Hq]. destruct (H2 w) as [Ht _].
  now split.
Qed.

Lemma download_logos_contained (r : path) (self : LogoFetcher)
  (total i : nat) (logos : list LogoCandidate) :
  Forall plain_name r -> (List.length r <= 1)%nat ->
  spec (contained root) any_value
       (download_logos env self (root ++ r) total i logos).
Proof.
  intros Hr Hlen.
  revert self i; induction logos as [|logo_info rest IH]; intros self i;
    cbn [download_logos].
  - now apply spec_ret.
  - apply spec_bind with (Q1 := any_value); [|intros self1 _; apply IH].
    apply spec_try.
    + cbv zeta.
      repeat (apply spec_bind with (Q1 := any_value);
              [now apply spec_print | intros _ _]).
      apply spec_bind with (Q1 := any_value).
      { apply download_logo_to_folder_events; try easy.
        intros data. fold (logo_filename i (lc_mime logo_info)).
        rewrite (path_join_plain _ (logo_filename_plain i (lc_mime logo_info))).
        exists (r ++ [logo_filename i (lc_mime logo_info)]).
        rewrite app_assoc. repeat split.
        - apply Forall_app. split; [exact Hr|].
          constructor; [apply logo_filename_plain | constructor].
        - rewrite length_app. simpl. lia. }
      intros ok _.
      apply spec_bind with (Q1 := any_value); [now apply spec_sleep|].
      intros _ _. now apply spec_ret.
    + intros e.
      apply spec_bind with (Q1 := any_value); [now apply spec_print|].
      intros _ _. now apply spec_ret.
Qed.

Lemma process_company_contained (self : LogoFetcher) (company_name : str) :
  logo_dir self = root ->
  spec (contained root) any_value (process_company rt env self company_name).
Proof.
  intros Hdir. unfold process_company. cbv zeta.
  repeat (apply spec_bind with (Q1 := any_value);
          [now apply spec_print | intros _ _]).
  apply spec_bind with (Q1 := any_value).
  { apply find_company_logos_run. apply contained_lookup. }
  intros logos _. destruct logos as [|logo rest].
  - apply spec_bind with (Q1 := any_value); [now apply spec_print|].
    intros _ _. now apply spec_ret.
  - apply spec_bind with (Q1 := any_value); [now apply spec_print|].
    intros _ _. cbn [logo_dir add_found bump_processed]. rewrite Hdir.
    assert (Hjoin : exists r, path_join root (sanitize_filename rt company_name)
                              = root ++ r
                              /\ Forall plain_name r /\ (List.length r <= 1)%nat).
    { destruct (sanitize_filename_plain company_name Hrt) as [E|Hp].
      - rewrite E. exists []. rewrite app_nil_r. repeat split; auto.
      - rewrite (path_join_plain _ Hp).
        exists [sanitize_filename rt company_name].
        repeat split; auto. }
    destruct Hjoin as (r & -> & Hr & Hlen).
    apply spec_bind with (Q1 := any_value).
    { apply spec_ask; [|easy]. exists r. repeat split; auto. }
    intros _ _.
    apply spec_bind with (Q1 := any_value); [now apply spec_print|].
    intros _ _. eapply spec_weaken; [now apply download_logos_contained | easy].
Qed.

Lemma process_all_contained (self : LogoFetcher) (companies : list str) :
  logo_dir self = root ->
  spec (contained root) any_value (process_all rt env self companies).
Proof.
  revert self; induction companies as [|company rest IH]; intros self Hdir;
    cbn [process_all].
  - now apply spec_ret.
  - apply spec_bind
      with (Q1 := fun self1 => exists found,
                      (0 <= found)%Z /\ accounted self self1 found).
    + eapply spec_result.
      * apply (process_company_run rt env self company
                 (any_event_permitted (logo_dir self))).
      * now apply process_company_contained.
    + intros self1 (found & _ & (Hd & _)).
      apply spec_bind with (Q1 := any_value); [now apply spec_sleep|].
      intros _ _. apply IH. now rewrite Hd.
Qed.

Lemma print_summary_prints (self : LogoFetcher) :
  spec (contained root) any_value (print_summary (World := World) self).
Proof.
  unfold print_summary.
  repeat (apply spec_bind with (Q1 := any_value);
          [now apply spec_print | intros _ _]).
  apply spec_bind with (Q1 := any_value).
  - destruct (_ <? _)%Z; [now apply spec_print | now apply spec_ret].
  - intros _ _. now apply spec_print.
Qed.

Lemma main_contained (argv : list str) :
  root = [lit "company_logos"] ->
  spec (contained root) any_value (main rt env argv).
Proof.
  intros Hroot. unfold main. destruct (_ <? _)%nat.
  - apply spec_bind with (Q1 := any_value); [now apply spec_print|].
    intros _ _. now apply spec_ret.
  - cbv zeta.
    apply spec_bind with (Q1 := fun fetcher => logo_dir fetcher = root).
    + unfold new_LogoFetcher. cbv zeta.
      apply spec_bind with (Q1 := any_value).
      * apply spec_ask; [|easy]. exists []. rewrite app_nil_r, Hroot.
        repeat split; auto.
      * intros _ _.
        apply spec_bind with (Q1 := any_value); [now apply spec_print|].
        intros _ _. apply spec_ret. now rewrite Hroot.
    + intros fetcher Hdir.
      apply spec_bind with (Q1 := any_value); [|intros; now apply spec_ret].
      unfold run.
      repeat (apply spec_bind with (Q1 := any_value);
              [now apply spec_print | intros _ _]).
      apply spec_bind
        with (Q1 := fun self1 =>
                      tallied fetcher self1
                        (Z.of_nat (List.length (skipn 1 argv)))).
      * eapply spec_result.
        -- apply (process_all_run rt env fetcher (skipn 1 argv)
                    (any_event_permitted (logo_dir fetcher))).
        -- now apply process_all_contained.
      * intros self1 _.
        apply spec_bind with (Q1 := any_value); [|intros; now apply spec_ret].
        now apply print_summary_prints.
Qed.

End Containment.

(** Every directory a run creates and every file it writes lies at
    [company_logos] or at most two components below it, and each component
    below it is a plain name: not empty, without slash, and neither "." nor
    "..".  So nothing is created or written outside [company_logos],
    whatever the company names are.  (The folder name of a company has no
    slash and no period at all.) *)
Theorem run_writes_below_logo_dir (rt : PyRuntime) World (env : Env World) :
  ascii_sound rt ->
  (forall argv w,
      Forall (contained [lit "company_logos"]) (snd (main rt env argv w)))
  /\ (forall argv w,
        Forall (below [lit "company_logos"]) (snd (main rt env argv w)))
  /\ (forall company_name,
        ~ In slash (sanitize_filename rt company_name)
        /\ ~ In period (sanitize_filename rt company_name)).
Proof.
  intros Hrt. split; [|split].
  - intros argv w.
    now destruct (@main_contained rt World env [lit "company_logos"] Hrt argv
                    eq_refl w).
  - intros argv w.
    now destruct (main_run rt env argv (below_permitted [lit "company_logos"]) w).
  - destruct Hrt as (Hal & _). intros company_name.
    pose proof (sanitize_filename_word rt company_name) as Hw.
    rewrite Forall_forall in Hw.
    split; intros Hin; apply Hw in Hin; unfold re_word in Hin;
      rewrite Hal in Hin by reflexivity; discriminate.
Qed.

Lemma run_writes_below_logo_dir_witness :
  Forall (contained [lit "company_logos"])
         (snd (main ascii_runtime (Demo.env Demo.infos)
                 [lit "fetch-logos-only.py"; lit "Acme"] 0)).
Proof.
  apply (proj1 (@run_writes_below_logo_dir ascii_runtime nat
                  (Demo.env Demo.infos)
                  (conj (fun c _ => eq_refl)
                        (conj (fun c _ => eq_refl) (fun s _ => eq_refl))))).
Defined.

(** ** The candidates and the titles they were fetched for *)

Lemma imageinfo_request_inj (t1 t2 : str) :
  imageinfo_request t1 = imageinfo_request t2 -> t1 = t2.
Proof. unfold imageinfo_request. intros H. now injection H. Qed.

Lemma images_request_not_imageinfo (t1 t2 : str) :
  images_request t1 <> imageinfo_request t2.
Proof.
  unfold images_request, imageinfo_request. intros H.
  injection H as Hurl _. vm_compute in Hurl. discriminate.
Qed.

Section Gate.

Variable rt : PyRuntime.
Variable World : Type.
Variable env : Env World.

Lemma get_logo_info_events (P : Event -> Prop) (file_title : str) :
  (forall m, P (EvPrint m)) ->
  P (EvHttpGet (imageinfo_request file_title)) ->
  spec P any_value (get_logo_info env file_title).
Proof.
  intros Hprint Hinfo.
  unfold get_logo_info. apply spec_try.
  - apply spec_bind with (Q1 := any_value).
    + unfold requests_get. apply spec_ask; [apply Hinfo | easy].
    + intros response _. destruct (negb _); [now apply spec_ret|].
      apply spec_bind with (Q1 := any_value).
      * unfold response_pages. destruct (json response).
        -- now apply spec_ret.
        -- apply spec_raise.
      * intros pages _. now apply spec_ret.
  - intros e. apply spec_bind with (Q1 := any_value).
    + now apply spec_print.
    + intros _ _. now apply spec_ret.
Qed.

Lemma gated_print (m : Msg) : gated rt (EvPrint m).
Proof. intros title H. discriminate. Qed.

Lemma gated_wiki (v : str) : gated rt (EvWikiExists v).
Proof. intros title H. discriminate. Qed.

Lemma gated_listing (title : str) : gated rt (EvHttpGet (images_request title)).
Proof.
  intros t H. unfold imageinfo_event in H.
  assert (E : images_request title = imageinfo_request t) by congruence.
  now apply images_request_not_imageinfo in E.
Qed.

Lemma gated_passing (title : str) :
  is_logo_file rt title = true -> gated rt (EvHttpGet (imageinfo_request title)).
Proof.
  intros Hp t H. unfold imageinfo_event in H.
  assert (E : imageinfo_request title = imageinfo_request t) by congruence.
  apply imageinfo_request_inj in E. now subst t.
Qed.

Lemma scan_images_gated (images_list : list str) (logos : list LogoCandidate) :
  spec (gated rt) any_value (scan_images rt env images_list logos).
Proof.
  revert logos; induction images_list as [|title rest IH]; intros logos;
    cbn [scan_images].
  - now apply spec_ret.
  - destruct (is_logo_file rt title) eqn:Hp; [|apply IH].
    apply spec_bind with (Q1 := any_value);
      [apply spec_print; [apply gated_print | easy]|].
    intros _ _. apply spec_bind with (Q1 := any_value).
    { apply get_logo_info_events; [apply gated_print | now apply gated_passing]. }
    intros [logo|] _; [|apply IH].
    apply spec_bind with (Q1 := any_value);
      [apply spec_print; [apply gated_print | easy]|].
    intros _ _. apply IH.
Qed.

Lemma scan_pages_gated (pages : Pages) (logos : list LogoCandidate) :
  spec (gated rt) any_value (scan_pages rt env pages logos).
Proof.
  revert logos; induction pages as [|[page_id page_data] rest IH];
    intros logos; cbn [scan_pages].
  - now apply spec_ret.
  - destruct (pd_images page_data) as [images_list|].
    + apply spec_bind with (Q1 := any_value);
        [apply spec_print; [apply gated_print | easy]|].
      intros _ _. apply spec_bind with (Q1 := any_value);
        [apply scan_images_gated|].
      intros logos1 _. apply IH.
    + apply spec_bind with (Q1 := any_value);
        [apply spec_print; [apply gated_print | easy]|].
      intros _ _. apply IH.
Qed.

Lemma first_existing_gated (variations : list str) :
  spec (gated rt) any_value (first_existing env variations).
Proof.
  induction variations as [|v vs IH]; cbn [first_existing].
  - now apply spec_ret.
  - apply spec_bind with (Q1 := any_value).
    + apply spec_ask; [apply gated_wiki | easy].
    + intros [title|] _; [now apply spec_ret | exact IH].
Qed.

Lemma find_company_logos_gated (company_name : str) :
  spec (gated rt) any_value (find_company_logos rt env company_name).
Proof.
  unfold find_company_logos. apply spec_try.
  - apply spec_bind with (Q1 := any_value);
      [apply spec_print; [apply gated_print | easy]|].
    intros _ _. apply spec_bind with (Q1 := any_value);
      [apply first_existing_gated|].
    intros [page|] _.
    + apply spec_bind with (Q1 := any_value);
        [apply spec_print; [apply gated_print | easy]|].
      intros _ _. apply spec_bind with (Q1 := any_value).
      * unfold requests_get. apply spec_ask; [apply gated_listing | easy].
      * intros response _. destruct (negb _).
        -- apply spec_bind with (Q1 := any_value);
             [apply spec_print; [apply gated_print | easy]|].
           intros _ _. now apply spec_ret.
        -- apply spec_bind with (Q1 := any_value).
           ++ unfold response_pages. destruct (json response).
              ** now apply spec_ret.
              ** apply spec_raise.
           ++ intros pages _. apply scan_pages_gated.
    + apply spec_bind with (Q1 := any_value);
        [apply spec_print; [apply gated_print | easy]|].
      intros _ _. now apply spec_ret.
  - intros e. apply spec_bind with (Q1 := any_value);
      [apply spec_print; [apply gated_print | easy]|].
    intros _ _. now apply spec_ret.
Qed.

(** A candidate among the answers is the answer to one title of the list,
    asked in the world the titles before it left. *)
Lemma fetch_each_member (titles : list str) (w : World) (logo : LogoCandidate) :
  In logo (somes (fst (fetch_each env titles w))) ->
  exists before title after image_info,
    titles = before ++ title :: after
    /\ fst (fst (get_logo_info env title (snd (fetch_each env before w))))
       = Val (Some logo)
    /\ logo_of_info title image_info = Some logo.
Proof.
  revert w; induction titles as [|title rest IH]; intros w; [intros []|].
  cbn [fetch_each].
  destruct (get_logo_info_total env title w) as (r & w1 & t1 & Hg & _ & Hr).
  rewrite Hg. destruct (fetch_each env rest w1) as [rs w2] eqn:Hf.
  cbn [fst somes flat_map]. intros Hin. apply in_app_or in Hin as [Hin|Hin].
  - destruct r as [l|]; [|destruct Hin]. destruct Hin as [->|[]].
    destruct (Hr logo eq_refl) as [pages Hp].
    apply logo_of_pages_Some in Hp as [image_info Hi].
    exists [], title, rest, image_info. cbn [app fetch_each snd].
    rewrite Hg. repeat split; auto.
  - destruct (IH w1) as (before & title' & after & image_info & E & Hget & Hi).
    + rewrite Hf. exact Hin.
    + exists (title :: before), title', after, image_info.
      repeat split; [now rewrite E | | exact Hi].
      cbn [fetch_each]. rewrite Hg.
      destruct (fetch_each env before w1) as [rb wb]. exact Hget.
Qed.

(** The paths of [find_company_logos]: the empty list, or the scan of the
    listing the world gave for the article found. *)
Lemma find_company_logos_paths (company_name : str) (w : World) :
  (exists w' t, find_company_logos rt env company_name w = (Val [], w', t))
  \/ (exists page w1 t1 response w2 pages t,
        first_existing env (search_variations company_name) w
        = (Val (Some page), w1, t1)
        /\ http_get env (images_request (wp_title page)) w1 = (Val response, w2)
        /\ status_code response = 200%Z
        /\ json response = Some pages
        /\ find_company_logos rt env company_name w
           = (Val (somes (fst (fetch_each env
                                 (filter (is_logo_file rt) (all_images pages))
                                 w2))),
              snd (fetch_each env (filter (is_logo_file rt) (all_images pages))
                     w2), t)).
Proof.
  destruct (find_company_logos_cases rt env company_name w)
    as [Hnil | (pages0 & w0 & t0 & H0)]; [now left|].
  destruct (first_existing env (search_variations company_name) w)
    as [[[[page|]|e] w1] t1] eqn:Hfirst.
  - destruct (http_get env (images_request (wp_title page)) w1)
      as [[response|e] w2] eqn:Hget.
    + destruct (status_code response =? 200)%Z eqn:Hst.
      * apply Z.eqb_eq in Hst.
        destruct (json response) as [pages|] eqn:Hjson.
        -- right.
           destruct (@find_company_logos_scan rt World env company_name w w1 w2
                       page t1 response pages Hfirst Hget Hst Hjson)
             as (t & Hfind & _).
           exists page, w1, t1, response, w2, pages, t. repeat split; auto.
        -- left. do 2 eexists. unfold find_company_logos.
           eapply try_exn; [|reflexivity].
           eapply bind_val; [reflexivity|].
           eapply bind_val; [exact Hfirst|]. cbv beta iota.
           eapply bind_val; [reflexivity|].
           eapply bind_val; [unfold requests_get, ask; rewrite Hget; reflexivity|].
           rewrite Hst. cbn [Z.eqb Pos.eqb negb].
           eapply bind_exn. unfold response_pages. rewrite Hjson. reflexivity.
      * left. do 2 eexists. unfold find_company_logos. eapply try_val.
        eapply bind_val; [reflexivity|].
        eapply bind_val; [exact Hfirst|]. cbv beta iota.
        eapply bind_val; [reflexivity|].
        eapply bind_val; [unfold requests_get, ask; rewrite Hget; reflexivity|].
        rewrite Hst. cbn [negb]. reflexivity.
    + left. do 2 eexists. unfold find_company_logos.
      eapply try_exn; [|reflexivity].
      eapply bind_val; [reflexivity|].
      eapply bind_val; [exact Hfirst|]. cbv beta iota.
      eapply bind_val; [reflexivity|].
      eapply bind_exn. unfold requests_get, ask. rewrite Hget. reflexivity.
  - left. do 2 eexists. unfold find_company_logos. eapply try_val.
    eapply bind_val; [reflexivity|].
    eapply bind_val; [exact Hfirst|]. reflexivity.
  - left. do 2 eexists. unfold find_company_logos.
    eapply try_exn; [|reflexivity].
    eapply bind_val; [reflexivity|].
    eapply bind_exn. exact Hfirst.
Qed.

End Gate.

(** C2 (as amended).  In every run of [find_company_logos] the metadata of
    a title is requested only if the title passes [is_logo_file].  Every
    candidate returned is what [get_logo_info] answered for one of the
    references of the listing the world gave for the article found, a
    reference that passed [is_logo_file], asked after the passing
    references listed before it: the lower-cased title has no deny-list
    keyword and ends in ".png" or ".svg" (and the title itself contains no
    deny-list keyword).  The candidate's MIME type contains "png" or
    contains "svg"; if it contains "svg" and not "png", the width is at
    least 100. *)
Theorem candidates_are_gated (rt : PyRuntime) World (env : Env World)
  (company_name : str) (w w' : World) (logos : list LogoCandidate)
  (t : list Event) :
  find_company_logos rt env company_name w = (Val logos, w', t) ->
  (forall title, In (imageinfo_event title) t -> is_logo_file rt title = true)
  /\ (forall logo,
        In logo logos ->
        (contains (lit "png") (lc_mime logo) = true
         \/ contains (lit "svg") (lc_mime logo) = true)
        /\ (contains (lit "svg") (lc_mime logo) = true ->
            contains (lit "png") (lc_mime logo) = false ->
            (100 <= lc_width logo)%Z)
        /\ exists page w1 t1 response w2 pages before img_title after image_info,
             first_existing env (search_variations company_name) w
             = (Val (Some page), w1, t1)
             /\ http_get env (images_request (wp_title page)) w1
                = (Val response, w2)
             /\ json response = Some pages
             /\ filter (is_logo_file rt) (all_images pages)
                = before ++ img_title :: after
             /\ fst (fst (get_logo_info env img_title
                            (snd (fetch_each env before w2))))
                = Val (Some logo)
             /\ logo_of_info img_title image_info = Some logo
             /\ In img_title (all_images pages)
             /\ In (imageinfo_event img_title) t
             /\ is_logo_file rt img_title = true
             /\ has_skip_keyword (lower rt img_title) = false
             /\ is_png_svg (lower rt img_title) = true
             /\ (lower_keeps rt ->
                 forall k, In k skip_keywords -> contains k img_title = false)).
Proof.
  intros Hfind. split.
  - intros title Hin.
    destruct (find_company_logos_gated rt env company_name w) as [Ht _].
    rewrite Hfind in Ht. cbn [snd] in Ht. rewrite Forall_forall in Ht.
    exact (Ht _ Hin title eq_refl).
  - intros logo Hin.
    destruct (find_company_logos_paths rt env company_name w)
      as [(w0 & t0 & H) | (page & w1 & t1 & response & w2 & pages & t0
                           & Hfirst & Hget & Hst & Hjson & H)];
      rewrite H in Hfind; injection Hfind as <- _ <-; [destruct Hin|].
    pose proof Hin as Hmem.
    apply fetch_each_member in Hmem
      as (before & img_title & after & image_info & Esplit & Hfetch & Hinfo).
    assert (Hfiltered : In img_title (filter (is_logo_file rt) (all_images pages)))
      by (rewrite Esplit; apply in_or_app; right; now left).
    apply filter_In in Hfiltered as [Hlisted Hpass].
    destruct (@logo_of_info_Some img_title image_info logo Hinfo) as [Hacc _].
    apply accepts_iff in Hacc.
    destruct (@is_logo_file_true rt img_title Hpass) as (_ & Hext & Hskip).
    split; [|split].
    + destruct Hacc as [Hpng | [Hsvg _]]; auto.
    + intros _ Hnopng. destruct Hacc as [Hpng | [_ Hw]]; [congruence | exact Hw].
    + exists page, w1, t1, response, w2, pages, before, img_title, after,
        image_info.
      repeat split; try assumption.
      * destruct (@find_company_logos_scan rt World env company_name w w1 w2
                    page t1 response pages Hfirst Hget Hst Hjson)
          as (ts & Hscan & Hnet).
        rewrite H in Hscan. injection Hscan as <-.
        assert (Hn : In (imageinfo_event img_title) (filter is_network t0)).
        { rewrite Hnet. apply in_or_app. right. right.
          apply in_map. rewrite Esplit. apply in_or_app. right. now left. }
        now apply filter_In in Hn.
      * intros Hkeep k Hk.
        destruct (contains k img_title) eqn:Hc; [|reflexivity].
        rewrite (@skip_keyword_in_title rt k img_title Hkeep Hk Hc) in Hskip.
        discriminate.
Qed.

Lemma candidates_are_gated_witness :
  (forall title,
      In (imageinfo_event title)
         (snd (find_company_logos ascii_runtime (Demo.env Demo.infos)
                 (lit "Acme") 0)) ->
      is_logo_file ascii_runtime title = true)
  /\ (contains (lit "png")
        (lc_mime (Demo.acme_wordmark "image/svg+xml" 200 50)) = true
      \/ contains (lit "svg")
           (lc_mime (Demo.acme_wordmark "image/svg+xml" 200 50)) = true).
Proof.
  destruct (@candidates_are_gated ascii_runtime nat (Demo.env Demo.infos)
              (lit "Acme") 0 6
              [Demo.acme_logo; Demo.acme_wordmark "image/svg+xml" 200 50]
              (snd (find_company_logos ascii_runtime (Demo.env Demo.infos)
                      (lit "Acme") 0))
              eq_refl) as [Hgate Hlogos].
  split; [exact Hgate|].
  destruct (Hlogos (Demo.acme_wordmark "image/svg+xml" 200 50)
              (or_intror (or_introl eq_refl))) as [Hmime _].
  exact Hmime.
Defined.
